(** * The master problem of the column-generation planner

    A shallow embedding of [src/planners/master_problem.py] (class
    [MasterProblem]) and the properties of its formulation, solve and
    extraction steps.

    Numbers.  Python and numpy floats are idealised as exact rationals in
    canonical form ([Qc]), so equality of numbers is Leibniz equality and
    [np.sum(weights) == 0] is an exact test.

    External collaborators.  The convex solver ([cvxpy]) and the three
    fairness primitives of [util.fairness_penalties] are not part of
    [master_problem.py]; they are variables of the section below. What a
    solver returns is right only up to its tolerance, which the solver's
    contract carries as a parameter. *)

From Stdlib Require Import String List Bool Arith Lia ZArith QArith Qcanon Field Lqa.
Import ListNotations.

Close Scope Qc_scope.
Close Scope Q_scope.
Local Open Scope string_scope.

(** ** Exceptions and the error monad *)

Inductive exn : Type :=
| IndexError
| TypeError
| AttributeError
| UnboundLocalError (name : string)
| ValueError (msg : string)
| NotImplementedError (msg : string).

Definition result (A : Type) : Type := (exn + A)%type.

Definition ret {A : Type} (x : A) : result A := inr x.

Definition raise {A : Type} (e : exn) : result A := inl e.

Definition bind {A B : Type} (m : result A) (k : A -> result B) : result B :=
  match m with
  | inl e => inl e
  | inr x => k x
  end.

Notation "x <- m ;; k" := (bind m (fun x => k))
  (at level 61, m at next level, right associativity).

Fixpoint foldM {A B : Type} (f : B -> A -> result B) (l : list A) (acc : B)
  : result B :=
  match l with
  | [] => ret acc
  | x :: l' => acc' <- f acc x ;; foldM f l' acc'
  end.

Fixpoint mapM {A B : Type} (f : A -> result B) (l : list A) : result (list B) :=
  match l with
  | [] => ret []
  | x :: l' => y <- f x ;; ys <- mapM f l' ;; ret (y :: ys)
  end.

(** ** Python and numpy helpers *)

(** [range(n)]. *)
Definition range (n : nat) : list nat := seq 0 n.

Fixpoint enumerate_from {A : Type} (i : nat) (l : list A) : list (nat * A) :=
  match l with
  | [] => []
  | x :: l' => (i, x) :: enumerate_from (S i) l'
  end.

(** [enumerate(l)]. *)
Definition enumerate {A : Type} (l : list A) : list (nat * A) :=
  enumerate_from 0 l.

(** [l[i]] for an index [i >= 0]: out of range raises [IndexError]. *)
Definition index {A : Type} (l : list A) (i : nat) : result A :=
  match nth_error l i with
  | Some x => ret x
  | None => raise IndexError
  end.

(** [np.sum] and the builtin [sum] over a one-dimensional array. *)
Definition np_sum (l : list Qc) : Qc := fold_left Qcplus l 0%Qc.

(** [x * y] on one-dimensional numpy arrays, with numpy's broadcasting:
    equal lengths multiply entry by entry, a one-entry array is stretched,
    anything else is a [ValueError]. *)
Definition np_mul (x y : list Qc) : result (list Qc) :=
  if Nat.eqb (length x) (length y)
  then ret (map (fun p => (fst p * snd p)%Qc) (combine x y))
  else match x, y with
       | [k], _ => ret (map (fun v => (k * v)%Qc) y)
       | _, [k] => ret (map (fun v => (v * k)%Qc) x)
       | _, _ => raise (ValueError "operands could not be broadcast together")
       end.

(** A length as a number. *)
Definition Qc_of_nat (n : nat) : Qc := Q2Qc (inject_Z (Z.of_nat n)).

Definition Qc_ltb (x y : Qc) : bool :=
  match (x ?= y)%Qc with Lt => true | _ => false end.

Definition Qc_leb (x y : Qc) : bool :=
  match (x ?= y)%Qc with Gt => false | _ => true end.

(** ** Data model *)

(** A column is the dict [{"claims": ..., "reward": ...}]. *)
Record Column : Type := {
  claims : list Qc;
  reward : list Qc
}.

Module Agent.
Record t : Type := {
  horizon : nat;
  fixed_cost_vector : list Qc;
  get_columns : list Column
}.
End Agent.

(** A scalar [cv.Variable(nonneg=True)]; the variable created for column [c]
    of agent [a] is identified by that position. [value] is [None] until a
    solve stores one. *)
Record CvVariable : Type := {
  var_agent : nat;
  var_col : nat;
  nonneg : bool;
  value : option Qc
}.

(** What Python arithmetic on variables builds: a plain number or a solver
    expression. [EVariancePenalty args] is the expression returned by the
    external call [variance_penalty(args)]. *)
#[warnings="-register-all"]
Inductive expr : Type :=
| ENum (q : Qc)
| EVar (a c : nat)
| EAdd (e1 e2 : expr)
| ESub (e1 e2 : expr)
| EMul (e1 e2 : expr)
| EVariancePenalty (args : list expr).

Inductive relation : Type := RelEq | RelLe.

(** The object a comparison returns: a solver constraint when one side is an
    expression, a Python [bool] when both sides are plain numbers.
    [constr_id] is the position of the constraint in the problem's list. *)
Inductive constraint : Type :=
| PyBool (b : bool)
| Constr (constr_id : nat) (lhs : expr) (rel : relation) (rhs : Qc)
         (dual_value : option Qc).

(** [cv.Problem(cv.Maximize(objective), constraints)]. *)
Record Problem : Type := {
  objective : expr;
  constraints : list constraint
}.

Inductive Status : Type := Optimal | Infeasible | Unbounded | SolverError.

(** [lp.value]: a number, an infinity or [None]. *)
Inductive xvalue : Type :=
| Finite (q : Qc)
| PosInf
| NegInf
| NoValue.

(** What the solver leaves behind: a status, the objective value, a value
    for each variable and a dual for each constraint, each possibly unset. *)
Record Solution : Type := {
  status : Status;
  opt_value : xvalue;
  primal : nat -> nat -> option Qc;
  dual : nat -> option Qc
}.

Record LP : Type := {
  lp_problem : Problem;
  lp_status : Status;
  lp_value : xvalue
}.

Record MasterProblem : Type := {
  agents : list Agent.t;
  horizon : nat;
  num_agents : nat;
  resource_capacity : Qc;
  langrangian_weight : Qc;
  fairness_type : string;
  fairness_scope : string;
  decision_vars : list (list CvVariable);
  lp : option LP;
  resource_constraints : list constraint
}.

Definition set_decision_vars (self : MasterProblem) (dv : list (list CvVariable))
  : MasterProblem :=
  {| agents := agents self; horizon := horizon self;
     num_agents := num_agents self;
     resource_capacity := resource_capacity self;
     langrangian_weight := langrangian_weight self;
     fairness_type := fairness_type self;
     fairness_scope := fairness_scope self;
     decision_vars := dv; lp := lp self;
     resource_constraints := resource_constraints self |}.

Definition set_resource_constraints (self : MasterProblem)
  (rc : list constraint) : MasterProblem :=
  {| agents := agents self; horizon := horizon self;
     num_agents := num_agents self;
     resource_capacity := resource_capacity self;
     langrangian_weight := langrangian_weight self;
     fairness_type := fairness_type self;
     fairness_scope := fairness_scope self;
     decision_vars := decision_vars self; lp := lp self;
     resource_constraints := rc |}.

Definition set_lp (self : MasterProblem) (p : option LP) : MasterProblem :=
  {| agents := agents self; horizon := horizon self;
     num_agents := num_agents self;
     resource_capacity := resource_capacity self;
     langrangian_weight := langrangian_weight self;
     fairness_type := fairness_type self;
     fairness_scope := fairness_scope self;
     decision_vars := decision_vars self; lp := p;
     resource_constraints := resource_constraints self |}.

(** ** [MasterProblem.__init__] *)

Definition init (ags : list Agent.t) (capacity weight : Qc)
  (ftype fscope : string) : result MasterProblem :=
  match ags with
  | [] => raise IndexError
  | first :: _ =>
      ret {| agents := ags;
             horizon := Agent.horizon first;
             num_agents := length ags;
             resource_capacity := capacity;
             langrangian_weight := weight;
             fairness_type := ftype;
             fairness_scope := fscope;
             decision_vars := [];
             lp := None;
             resource_constraints := [] |}
  end.

(** The keyword defaults of the constructor. *)
Definition default_resource_capacity : Qc := 1%Qc.
Definition default_langrangian_weight : Qc := 1%Qc.
Definition default_fairness_type : string := "variance".
Definition default_fairness_scope : string := "timestep".

(** ** Formulation *)

Definition new_agent_vars (a : nat) (agent : Agent.t) : list CvVariable :=
  map (fun c => {| var_agent := a; var_col := c; nonneg := true;
                   value := None |})
      (range (length (Agent.get_columns agent))).

(** The first loop of [solve]: one fresh variable per (agent, column). *)
Definition create_decision_vars (ags : list Agent.t) : list (list CvVariable) :=
  map (fun p => new_agent_vars (fst p) (snd p)) (enumerate ags).

Definition as_expr (v : CvVariable) : expr := EVar (var_agent v) (var_col v).

(** [self.decision_vars[a][c]]. *)
Definition decision_var (self : MasterProblem) (a c : nat) : result CvVariable :=
  row <- index (decision_vars self) a ;; index row c.

(** [cv.sum(vars)] on a Python list is the builtin [sum]: it starts from the
    number [0] and adds the entries from left to right. *)
Definition cv_sum (vars : list CvVariable) : expr :=
  fold_left (fun acc v => EAdd acc (as_expr v)) vars (ENum 0%Qc).

(** [lhs == rhs] and [lhs <= rhs] with a number on the right. *)
Definition py_eq (id : nat) (lhs : expr) (rhs : Qc) : constraint :=
  match lhs with
  | ENum q => PyBool (Qc_eq_bool q rhs)
  | _ => Constr id lhs RelEq rhs None
  end.

Definition py_le (id : nat) (lhs : expr) (rhs : Qc) : constraint :=
  match lhs with
  | ENum q => PyBool (Qc_leb q rhs)
  | _ => Constr id lhs RelLe rhs None
  end.

(** The second loop of [solve]: one convex-combination constraint per agent. *)
Definition agent_constraints (self : MasterProblem) : result (list constraint) :=
  mapM (fun a => vars <- index (decision_vars self) a ;;
                 ret (py_eq a (cv_sum vars) 1%Qc))
       (range (num_agents self)).

(** The coefficient a loop reads off a column: [column["claims"][t]] or
    [sum(column["claims"])]. *)
Definition claim_at (t : nat) (column : Column) : result Qc :=
  index (claims column) t.

Definition cumulative_claim (column : Column) : result Qc :=
  ret (np_sum (claims column)).

(** [for c, column in enumerate(agent.get_columns()):
       expr += self.decision_vars[a][c] * coef(column)]. *)
Definition weighted_expr (self : MasterProblem) (coef : Column -> result Qc)
  (a : nat) (agent : Agent.t) (start : expr) : result expr :=
  foldM (fun acc p =>
           v <- decision_var self a (fst p) ;;
           k <- coef (snd p) ;;
           ret (EAdd acc (EMul (as_expr v) (ENum k))))
        (enumerate (Agent.get_columns agent)) start.

(** The left-hand side of the capacity constraint of period [t]. *)
Definition expected_total_claims (self : MasterProblem) (t : nat) : result expr :=
  foldM (fun acc p => weighted_expr self (claim_at t) (fst p) (snd p) acc)
        (enumerate (agents self)) (ENum 0%Qc).

(** The third loop of [solve]. Each constraint is appended to
    [self.resource_constraints] as soon as it is built, so an exception in
    period [t] leaves the constraints of the earlier periods in place. *)
Fixpoint resource_loop (self : MasterProblem) (ts : list nat)
  : MasterProblem * option exn :=
  match ts with
  | [] => (self, None)
  | t :: ts' =>
      match expected_total_claims self t with
      | inl e => (self, Some e)
      | inr total =>
          let c := py_le (num_agents self + t) total (resource_capacity self) in
          resource_loop
            (set_resource_constraints self (resource_constraints self ++ [c]))
            ts'
      end
  end.

(** The per-agent expressions [expected_claims_t] and
    [expected_cumulative_claims]. *)
Definition expected_claims (self : MasterProblem) (coef : Column -> result Qc)
  : result (list expr) :=
  mapM (fun a => agent <- index (agents self) a ;;
                 weighted_expr self coef a agent (ENum 0%Qc))
       (range (num_agents self)).

(** [fairness_penalty] is assigned only under [fairness_type == "variance"];
    reading it otherwise finds the local unbound. *)
Definition fairness_penalty (self : MasterProblem) (values : list expr)
  : result expr :=
  if String.eqb (fairness_type self) "variance"
  then ret (EVariancePenalty values)
  else raise (UnboundLocalError "fairness_penalty").

(** The block guarded by [if self.langrangian_weight > 0]. *)
Definition subtract_penalty (self : MasterProblem) (total : expr) : result expr :=
  if Qc_ltb 0%Qc (langrangian_weight self) then
    if String.eqb (fairness_scope self) "timestep" then
      foldM (fun acc t =>
               expected_claims_t <- expected_claims self (claim_at t) ;;
               penalty <- fairness_penalty self expected_claims_t ;;
               ret (ESub acc (EMul (ENum (langrangian_weight self)) penalty)))
            (range (horizon self)) total
    else if String.eqb (fairness_scope self) "cumulative" then
      expected_cumulative_claims <- expected_claims self cumulative_claim ;;
      penalty <- fairness_penalty self expected_cumulative_claims ;;
      ret (ESub total (EMul (ENum (langrangian_weight self)) penalty))
    else raise (ValueError "Unknown fairness_scope option")
  else ret total.

Definition net_value (agent : Agent.t) (column : Column) : result Qc :=
  let reward := np_sum (reward column) in
  weighted_cost <- np_mul (Agent.fixed_cost_vector agent) (claims column) ;;
  let cost := np_sum weighted_cost in
  ret (reward - cost)%Qc.

(** The reward loop of [solve]. *)
Definition add_rewards (self : MasterProblem) (total : expr) : result expr :=
  foldM (fun acc p =>
           foldM (fun acc' q =>
                    nv <- net_value (snd p) (snd q) ;;
                    v <- decision_var self (fst p) (fst q) ;;
                    ret (EAdd acc' (EMul (as_expr v) (ENum nv))))
                 (enumerate (Agent.get_columns (snd p))) acc)
        (enumerate (agents self)) total.

(** [total_expected_reward] as handed to [cv.Maximize]. *)
Definition total_expected_reward (self : MasterProblem) : result expr :=
  penalized <- subtract_penalty self (ENum 0%Qc) ;;
  add_rewards self penalized.

(** ** Reference collaborators and the scenarios of the specification *)

(** Modelled from the spec: [variance_penalty_numpy] ("returns the scalar
    variance value") and [variance_penalty_gradient] ("per-entry partial
    derivatives of the same variance definition") of
    [util.fairness_penalties], whose source is not part of
    [master_problem.py], taken as the population variance and its gradient.
    They serve to run the model on examples; the general properties do not
    depend on them. *)
Definition population_variance (values : list Qc) : Qc :=
  let n := Qc_of_nat (length values) in
  let mean := (np_sum values / n)%Qc in
  (np_sum (map (fun x => (x - mean) * (x - mean))%Qc values) / n)%Qc.

Definition population_variance_gradient (values : list Qc) : list Qc :=
  let n := Qc_of_nat (length values) in
  let mean := (np_sum values / n)%Qc in
  map (fun x => (Q2Qc 2 * (x - mean) / n)%Qc) values.

(** An agent over one period with zero fixed cost and a single column of
    reward 1. *)
Definition unit_column (claim : Qc) : Column :=
  {| claims := [claim]; reward := [1%Qc] |}.

Definition unit_agent (claim : Qc) : Agent.t :=
  {| Agent.horizon := 1;
     Agent.fixed_cost_vector := [0%Qc];
     Agent.get_columns := [unit_column claim] |}.

(** The instance the constructor builds for two such agents. *)
Definition two_agents (claim0 claim1 capacity weight : Qc) (fscope : string)
  : MasterProblem :=
  {| agents := [unit_agent claim0; unit_agent claim1];
     horizon := 1;
     num_agents := 2;
     resource_capacity := capacity;
     langrangian_weight := weight;
     fairness_type := default_fairness_type;
     fairness_scope := fscope;
     decision_vars := [];
     lp := None;
     resource_constraints := [] |}.

(** Scenario A and Scenario B of the specification, with the type and the
    scope at their defaults ("variance", "timestep"); Scenario A with room
    for both claims; and an instance with an unknown scope. *)
Definition scenario_A : MasterProblem :=
  two_agents 1%Qc 1%Qc 1%Qc 0%Qc "timestep".

Definition scenario_B : MasterProblem :=
  two_agents 1%Qc 0%Qc 1%Qc (Q2Qc 5) "timestep".


Definition episode_instance : MasterProblem :=
  two_agents 1%Qc 0%Qc 1%Qc (Q2Qc 5) "episode".

(** Scenario B with weight 0 under a fairness type that is not
    implemented. *)
Definition entropy_instance : MasterProblem :=
  {| agents := [unit_agent 1%Qc; unit_agent 0%Qc];
     horizon := 1;
     num_agents := 2;
     resource_capacity := 1%Qc;
     langrangian_weight := 0%Qc;
     fairness_type := "entropy";
     fairness_scope := "timestep";
     decision_vars := [];
     lp := None;
     resource_constraints := [] |}.

(** The optimal value of the two-agent problem when the claims fit. *)
Definition two_agents_optimum (claim0 claim1 weight : Qc) : Qc :=
  (Q2Qc 2 -
   (if Qc_ltb 0%Qc weight
    then weight * population_variance [claim0; claim1]
    else 0))%Qc.

(** A solver outcome that sets every variable to 1. *)
Definition all_ones (v : Qc) : Solution :=
  {| status := Optimal; opt_value := Finite v;
     primal := fun _ _ => Some 1%Qc; dual := fun _ => Some 0%Qc |}.

(** The outcome of an infeasible problem: no variable holds a value. An
    interior-point solver still leaves a dual on the constraints, the
    certificate of infeasibility; here 3.155 on each. *)
Definition no_solution : Solution :=
  {| status := Infeasible; opt_value := NegInf;
     primal := fun _ _ => None;
     dual := fun _ => Some (Q2Qc (3155 # 1000)) |}.

(** An optimal outcome that leaves the values [values] in the variables
    and the duals [duals] on the constraints, and reports the value [v]. *)
Definition optimal_outcome (values : nat -> nat -> Qc) (v : Qc)
  (duals : nat -> option Qc) : Solution :=
  {| status := Optimal; opt_value := Finite v;
     primal := fun a c => Some (values a c); dual := duals |}.

(** The outcome that leaves [x0] in the variables of the first agent and
    [x1] in those of the others. *)
Definition near_ones (x0 x1 v : Qc) : Solution :=
  optimal_outcome (fun a _ => if Nat.eqb a 0 then x0 else x1) v
                  (fun _ => Some 0%Qc).

(** Outcomes a solver working to the tolerance 1e-6 may leave on Scenario B
    and on Scenario A with capacity 2: values within 1e-9 of 1, and as
    the reported value the objective at these values. *)
Definition scenario_B_outcome : Solution :=
  near_ones (Q2Qc (1000000001 # 1000000000))
            (Q2Qc (999999999 # 1000000000))
            (Q2Qc (1000000001 # 1000000000) +
             Q2Qc (999999999 # 1000000000) -
             Q2Qc 5 *
             population_variance
               [Q2Qc (1000000001 # 1000000000) * 1;
                Q2Qc (999999999 # 1000000000) * 0])%Qc.


(** One agent over one period that mixes a column claiming 1 with a
    column claiming 0, with weight 0. *)
Definition choice_agent : Agent.t :=
  {| Agent.horizon := 1;
     Agent.fixed_cost_vector := [0%Qc];
     Agent.get_columns := [unit_column 1%Qc; unit_column 0%Qc] |}.

Definition choice_instance : MasterProblem :=
  {| agents := [choice_agent];
     horizon := 1;
     num_agents := 1;
     resource_capacity := 1%Qc;
     langrangian_weight := 0%Qc;
     fairness_type := default_fairness_type;
     fairness_scope := default_fairness_scope;
     decision_vars := [];
     lp := None;
     resource_constraints := [] |}.

(** One agent over two periods with a single column, with weight 0. *)
Definition two_period_agent : Agent.t :=
  {| Agent.horizon := 2;
     Agent.fixed_cost_vector := [0%Qc; 0%Qc];
     Agent.get_columns :=
       [{| claims := [1%Qc; 0%Qc]; reward := [1%Qc; 1%Qc] |}] |}.

Definition two_period_instance : MasterProblem :=
  {| agents := [two_period_agent];
     horizon := 2;
     num_agents := 1;
     resource_capacity := 1%Qc;
     langrangian_weight := 0%Qc;
     fairness_type := default_fairness_type;
     fairness_scope := default_fairness_scope;
     decision_vars := [];
     lp := None;
     resource_constraints := [] |}.

(** Scenario B with weight 0 under an unknown scope. *)
Definition unweighted_episode_instance : MasterProblem :=
  two_agents 1%Qc 0%Qc 1%Qc 0%Qc "episode".

(** ** Solve and extraction, over the external collaborators *)

Section MasterProblemModel.

(** [variance_penalty_gradient] and [variance_penalty_numpy] of
    [util.fairness_penalties], and the solver behind [lp.solve()]. *)
Variable variance_penalty_gradient : list Qc -> list Qc.
Variable variance_penalty_numpy : list Qc -> Qc.
Variable cvx_solve : Problem -> Solution.

(** *** Numeric passes over the solved values *)

(** [for c, column in enumerate(agent.get_columns()):
       val += self.decision_vars[a][c].value * coef(column)].
    Both operands are evaluated before the product, so a missing entry of
    [claims] is reported before an unset [value]. *)
Definition weighted_value (self : MasterProblem) (coef : Column -> result Qc)
  (a : nat) (agent : Agent.t) (start : Qc) : result Qc :=
  foldM (fun acc p =>
           v <- decision_var self a (fst p) ;;
           k <- coef (snd p) ;;
           match value v with
           | None => raise TypeError
           | Some prob => ret (acc + prob * k)%Qc
           end)
        (enumerate (Agent.get_columns agent)) start.

(** The per-agent numbers [expected_claims_t], [claims_t], [claims]. *)
Definition numeric_claims (self : MasterProblem) (coef : Column -> result Qc)
  : result (list Qc) :=
  mapM (fun a => agent <- index (agents self) a ;;
                 weighted_value self coef a agent 0%Qc)
       (range (num_agents self)).

Definition gradient_primitive (self : MasterProblem) (values : list Qc)
  : result (list Qc) :=
  if String.eqb (fairness_type self) "variance"
  then ret (variance_penalty_gradient values)
  else raise (NotImplementedError
                "Only variance fairness implemented in gradient").

Definition compute_fairness_gradients (self : MasterProblem)
  : result (list (list Qc)) :=
  if String.eqb (fairness_scope self) "timestep" then
    gradients <-
      mapM (fun t => expected_claims_t <- numeric_claims self (claim_at t) ;;
                     gradient_primitive self expected_claims_t)
           (range (horizon self)) ;;
    mapM (fun a => mapM (fun t => grad_t <- index gradients t ;; index grad_t a)
                        (range (horizon self)))
         (range (num_agents self))
  else if String.eqb (fairness_scope self) "cumulative" then
    expected_cumulative_claims <- numeric_claims self cumulative_claim ;;
    grad_cumulative <- gradient_primitive self expected_cumulative_claims ;;
    mapM (fun a => g <- index grad_cumulative a ;; ret (repeat g (horizon self)))
         (range (num_agents self))
  else raise (ValueError "Unknown fairness_scope option").

Definition dual_price (c : constraint) : result Qc :=
  match c with
  | PyBool _ => raise AttributeError
  | Constr _ _ _ _ (Some d) => ret d
  | Constr _ _ _ _ None => ret 0%Qc
  end.

Definition get_dual_prices (self : MasterProblem) : result (list Qc) :=
  mapM dual_price (resource_constraints self).

Definition value_or_zero (v : CvVariable) : Qc :=
  match value v with
  | Some x => x
  | None => 0%Qc
  end.

(** The body of the loop of [get_decision_distribution]. Dividing an empty
    array by its length divides no entry, so the empty case returns the
    empty array. *)
Definition distribution (a_vars : list CvVariable) : list Qc :=
  let weights := map value_or_zero a_vars in
  if Qc_eq_bool (np_sum weights) 0%Qc
  then map (fun _ => (1 / Qc_of_nat (length weights))%Qc) weights
  else map (fun w => (w / np_sum weights)%Qc) weights.

Definition get_decision_distribution (self : MasterProblem) : list (list Qc) :=
  map distribution (decision_vars self).

Definition compute_realized_fairness_penalty (self : MasterProblem)
  : result Qc :=
  if String.eqb (fairness_scope self) "timestep" then
    foldM (fun penalty t =>
             claims_t <- numeric_claims self (claim_at t) ;;
             ret (penalty + variance_penalty_numpy claims_t)%Qc)
          (range (horizon self)) 0%Qc
  else if String.eqb (fairness_scope self) "cumulative" then
    claims <- numeric_claims self cumulative_claim ;;
    ret (variance_penalty_numpy claims)
  else raise (ValueError "Unknown fairness_scope").

(** *** [lp.solve()] *)

Definition solved_var (sol : Solution) (v : CvVariable) : CvVariable :=
  {| var_agent := var_agent v; var_col := var_col v; nonneg := nonneg v;
     value := primal sol (var_agent v) (var_col v) |}.

Definition solved_constraint (sol : Solution) (c : constraint) : constraint :=
  match c with
  | PyBool b => PyBool b
  | Constr id lhs rel rhs _ => Constr id lhs rel rhs (dual sol id)
  end.

(** The solver writes its results into the variable and constraint objects,
    which [self.decision_vars] and [self.resource_constraints] share with
    the problem. *)
Definition store_solution (self : MasterProblem) (p : Problem) (sol : Solution)
  : MasterProblem :=
  {| agents := agents self; horizon := horizon self;
     num_agents := num_agents self;
     resource_capacity := resource_capacity self;
     langrangian_weight := langrangian_weight self;
     fairness_type := fairness_type self;
     fairness_scope := fairness_scope self;
     decision_vars := map (map (solved_var sol)) (decision_vars self);
     lp := Some {| lp_problem := p; lp_status := status sol;
                   lp_value := opt_value sol |};
     resource_constraints :=
       map (solved_constraint sol) (resource_constraints self) |}.

(** *** [MasterProblem.solve] *)

(** Everything up to [cv.Problem(objective, constraints)]: the state with
    the rebuilt variables and constraints, and the problem or the exception
    that interrupted its construction. *)
Definition formulate (self : MasterProblem) : MasterProblem * result Problem :=
  let self := set_decision_vars self (create_decision_vars (agents self)) in
  match agent_constraints self with
  | inl e => (self, inl e)
  | inr agent_cs =>
      match resource_loop (set_resource_constraints self []) (range (horizon self)) with
      | (self, Some e) => (self, inl e)
      | (self, None) =>
          match total_expected_reward self with
          | inl e => (self, inl e)
          | inr total =>
              (self, inr {| objective := total;
                            constraints := agent_cs ++ resource_constraints self |})
          end
      end
  end.

(** The statements of [solve] after [self.lp.solve(verbose=False)]; they
    read the state and write nothing. *)
Definition report (self : MasterProblem) : result (xvalue * list (list Qc) * Qc) :=
  fairness_gradients_per_agent <- compute_fairness_gradients self ;;
  fairness_penalty_realized <- compute_realized_fairness_penalty self ;;
  let fairness_impact :=
    (langrangian_weight self * fairness_penalty_realized)%Qc in
  solved <- match lp self with
            | Some solved => ret solved
            | None => raise AttributeError
            end ;;
  ret (lp_value solved, get_decision_distribution self, fairness_impact).

Definition solve (self : MasterProblem)
  : MasterProblem * result (xvalue * list (list Qc) * Qc) :=
  match formulate self with
  | (self, inl e) => (self, inl e)
  | (self, inr problem) =>
      let self := store_solution self problem (cvx_solve problem) in
      (self, report self)
  end.

(** *** What the problem means, and what the solver promises *)

(** The number the external expression [variance_penalty(args)] denotes once
    its arguments are numbers. *)
Variable variance_penalty_value : list Qc -> Qc.

Fixpoint eval (rho : nat -> nat -> Qc) (e : expr) : Qc :=
  match e with
  | ENum q => q
  | EVar a c => rho a c
  | EAdd e1 e2 => (eval rho e1 + eval rho e2)%Qc
  | ESub e1 e2 => (eval rho e1 - eval rho e2)%Qc
  | EMul e1 e2 => (eval rho e1 * eval rho e2)%Qc
  | EVariancePenalty args => variance_penalty_value (map (eval rho) args)
  end.

Definition holds (rho : nat -> nat -> Qc) (c : constraint) : Prop :=
  match c with
  | PyBool b => b = true
  | Constr _ lhs RelEq rhs _ => eval rho lhs = rhs
  | Constr _ lhs RelLe rhs _ => (eval rho lhs <= rhs)%Qc
  end.

(** Every variable of the problem is declared [nonneg=True]. *)
Definition feasible (p : Problem) (rho : nat -> nat -> Qc) : Prop :=
  (forall a c, (0 <= rho a c)%Qc) /\ Forall (holds rho) (constraints p).

(** A constraint met up to the tolerance [eps], and an assignment without
    a negative variable that meets every constraint up to [eps]. *)
Definition holds_within (eps : Qc) (rho : nat -> nat -> Qc) (c : constraint)
  : Prop :=
  match c with
  | PyBool b => b = true
  | Constr _ lhs RelEq rhs _ =>
      (rhs - eps <= eval rho lhs)%Qc /\ (eval rho lhs <= rhs + eps)%Qc
  | Constr _ lhs RelLe rhs _ => (eval rho lhs <= rhs + eps)%Qc
  end.

Definition feasible_within (eps : Qc) (p : Problem) (rho : nat -> nat -> Qc)
  : Prop :=
  (forall a c, (0 <= rho a c)%Qc) /\
  Forall (holds_within eps rho) (constraints p).

(** Modelled from the spec: the convex solver is an external collaborator
    that takes an objective and linear constraints over nonnegative
    variables and "returns an optimal (or infeasible/unbounded/error)
    status, an objective value, and per-variable and per-constraint dual
    values when available". Its results are exact only "within solver
    tolerance (e.g., 1e-6)": the weights of an agent sum to 1 within the
    tolerance and the capacity is kept up to the tolerance, while "all
    weights" are at least 0. With the tolerance [eps], an optimal status
    comes with a value for every variable, none negative, that meet every
    constraint up to [eps]; the reported value is the objective at these
    values, and no feasible point beats it by more than [eps]. Any other
    status leaves every variable unset; nothing is promised then about
    the reported value or about the duals, which a solver may leave or
    not. *)
Definition solver_contract (eps : Qc) (p : Problem) (sol : Solution) : Prop :=
  match status sol with
  | Optimal =>
      exists rho,
        feasible_within eps p rho /\
        (forall a c, primal sol a c = Some (rho a c)) /\
        opt_value sol = Finite (eval rho (objective p)) /\
        (forall rho', feasible p rho' ->
                      (eval rho' (objective p) <=
                       eval rho (objective p) + eps)%Qc)
  | Infeasible | Unbounded | SolverError =>
      forall a c, primal sol a c = None
  end.

(** *** Reference points for the properties *)

(** The variables of a problem over [ags], holding the values [val]. *)
Definition vars_of (val : nat -> nat -> option Qc) (ags : list Agent.t)
  : list (list CvVariable) :=
  map (fun p =>
         map (fun c => {| var_agent := fst p; var_col := c; nonneg := true;
                          value := val (fst p) c |})
             (range (length (Agent.get_columns (snd p)))))
      (enumerate ags).

(** The data model of the agents: every array has [horizon] entries. *)
Definition well_formed_column (h : nat) (column : Column) : Prop :=
  length (claims column) = h /\ length (reward column) = h.

Definition well_formed_agent (h : nat) (agent : Agent.t) : Prop :=
  length (Agent.fixed_cost_vector agent) = h /\
  Forall (well_formed_column h) (Agent.get_columns agent).

(** An instance as the constructor leaves it, over well-formed agents. *)
Definition well_formed (self : MasterProblem) : Prop :=
  num_agents self = length (agents self) /\
  Forall (well_formed_agent (horizon self)) (agents self).

(** The configuration of an instance: what [solve] never writes. *)
Definition same_config (self self' : MasterProblem) : Prop :=
  agents self' = agents self /\
  horizon self' = horizon self /\
  num_agents self' = num_agents self /\
  resource_capacity self' = resource_capacity self /\
  langrangian_weight self' = langrangian_weight self /\
  fairness_type self' = fairness_type self /\
  fairness_scope self' = fairness_scope self.

(** [expr += x[a][c] * k(column)] over the columns, the lookups done. *)
Definition weighted_expr_of (k : Column -> Qc) (a : nat) (cols : list Column)
  (start : expr) : expr :=
  fold_left (fun acc p => EAdd acc (EMul (EVar a (fst p)) (ENum (k (snd p)))))
            (enumerate cols) start.

Definition claim_of (t : nat) (column : Column) : Qc :=
  nth t (claims column) 0%Qc.

Definition cumulative_claim_of (column : Column) : Qc :=
  np_sum (claims column).

(** The expected claim of one agent as an expression, and as a number
    under the assignment [rho]. *)
Definition expected_claim_expr (k : Column -> Qc) (p : nat * Agent.t) : expr :=
  weighted_expr_of k (fst p) (Agent.get_columns (snd p)) (ENum 0%Qc).

Definition expected_claim (rho : nat -> nat -> Qc) (k : Column -> Qc)
  (p : nat * Agent.t) : Qc :=
  np_sum (map (fun q => (rho (fst p) (fst q) * k (snd q))%Qc)
              (enumerate (Agent.get_columns (snd p)))).

(** The left-hand side of the capacity constraint of period [t]. *)
Definition total_claims_expr (ags : list Agent.t) (t : nat) : expr :=
  fold_left (fun acc p =>
               weighted_expr_of (claim_of t) (fst p)
                                (Agent.get_columns (snd p)) acc)
            (enumerate ags) (ENum 0%Qc).

Definition resource_constraint_of (self : MasterProblem) (t : nat)
  : constraint :=
  py_le (num_agents self + t) (total_claims_expr (agents self) t)
        (resource_capacity self).

Definition agent_constraint_of (p : nat * Agent.t) : constraint :=
  py_eq (fst p)
        (cv_sum (map (fun c => {| var_agent := fst p; var_col := c;
                                  nonneg := true; value := None |})
                     (range (length (Agent.get_columns (snd p))))))
        1%Qc.

(** The arguments of one call of [variance_penalty]. *)
Definition penalty_args (self : MasterProblem) (k : Column -> Qc) : list expr :=
  map (expected_claim_expr k) (enumerate (agents self)).

Definition penalty_term (self : MasterProblem) (k : Column -> Qc) : expr :=
  EMul (ENum (langrangian_weight self)) (EVariancePenalty (penalty_args self k)).

Definition penalized_of (self : MasterProblem) : expr :=
  if Qc_ltb 0%Qc (langrangian_weight self) then
    if String.eqb (fairness_scope self) "timestep" then
      fold_left (fun acc t => ESub acc (penalty_term self (claim_of t)))
                (range (horizon self)) (ENum 0%Qc)
    else ESub (ENum 0%Qc) (penalty_term self cumulative_claim_of)
  else ENum 0%Qc.

(** [sum(reward) - sum(fixed_cost_vector * claims)] on arrays of one
    length. *)
Definition net_value_of (agent : Agent.t) (column : Column) : Qc :=
  (np_sum (reward column) -
   np_sum (map (fun p => fst p * snd p)
               (combine (Agent.fixed_cost_vector agent) (claims column))))%Qc.

Definition rewards_of (ags : list Agent.t) (start : expr) : expr :=
  fold_left (fun acc p =>
               fold_left (fun acc' q =>
                            EAdd acc' (EMul (EVar (fst p) (fst q))
                                            (ENum (net_value_of (snd p) (snd q)))))
                         (enumerate (Agent.get_columns (snd p))) acc)
            (enumerate ags) start.

(** The problem [solve] builds on a well-formed instance. *)
Definition problem_of (self : MasterProblem) : Problem :=
  {| objective := rewards_of (agents self) (penalized_of self);
     constraints :=
       map agent_constraint_of (enumerate (agents self)) ++
       map (resource_constraint_of self) (range (horizon self)) |}.

(** The state [solve] hands to the solver on a well-formed instance. *)
Definition formulated (self : MasterProblem) : MasterProblem :=
  set_resource_constraints
    (set_decision_vars self (create_decision_vars (agents self)))
    (map (resource_constraint_of self) (range (horizon self))).

(** The scope and type under which the objective can be assembled. *)
Definition penalty_configured (self : MasterProblem) : Prop :=
  Qc_ltb 0%Qc (langrangian_weight self) = true ->
  fairness_type self = "variance" /\
  (fairness_scope self = "timestep" \/ fairness_scope self = "cumulative").

(** Two agents that differ at most in their [horizon] field. *)
Definition same_plan (x y : Agent.t) : Prop :=
  Agent.fixed_cost_vector x = Agent.fixed_cost_vector y /\
  Agent.get_columns x = Agent.get_columns y.

(** The instance [self] over another list of agents. *)
Definition set_agents (self : MasterProblem) (ags : list Agent.t)
  : MasterProblem :=
  {| agents := ags; horizon := horizon self;
     num_agents := num_agents self;
     resource_capacity := resource_capacity self;
     langrangian_weight := langrangian_weight self;
     fairness_type := fairness_type self;
     fairness_scope := fairness_scope self;
     decision_vars := decision_vars self; lp := lp self;
     resource_constraints := resource_constraints self |}.

(** The value a call of [solve] leaves in the variable of column [c] of
    agent [a]: the solver's, when the formulation reached the solver. *)
Definition solved_values (self : MasterProblem) : nat -> nat -> option Qc :=
  match snd (formulate self) with
  | inr problem => primal (cvx_solve problem)
  | inl _ => fun _ _ => None
  end.

(** The dual a call of [solve] leaves in the constraint at position [i]. *)
Definition solved_duals (self : MasterProblem) : nat -> option Qc :=
  match snd (formulate self) with
  | inr problem => dual (cvx_solve problem)
  | inl _ => fun _ => None
  end.

Definition is_number (e : expr) : bool :=
  match e with
  | ENum _ => true
  | _ => false
  end.

(** Some agent offers a column. *)
Definition has_column (self : MasterProblem) : Prop :=
  exists agent, In agent (agents self) /\ Agent.get_columns agent <> [].

(** A solved value as a number, an unset one read as 0. *)
Definition value_at (val : nat -> nat -> option Qc) (a c : nat) : Qc :=
  match val a c with
  | Some x => x
  | None => 0%Qc
  end.

(** The cross-agent vector of expected claims under the values [val]. *)
Definition expected_claims_of (self : MasterProblem)
  (val : nat -> nat -> option Qc) (k : Column -> Qc) : list Qc :=
  map (expected_claim (value_at val) k) (enumerate (agents self)).

(** The objective in the words of the specification: the sum over all
    (agent, column) pairs of variable times net value, minus the weighted
    fairness penalty when the weight is positive. The penalty is one
    variance term per period under the timestep scope and one variance term
    over the cumulative claims otherwise. *)
Definition spec_reward (self : MasterProblem) (rho : nat -> nat -> Qc) : Qc :=
  np_sum
    (map (fun p =>
            np_sum (map (fun q => (rho (fst p) (fst q) *
                                   net_value_of (snd p) (snd q))%Qc)
                        (enumerate (Agent.get_columns (snd p)))))
         (enumerate (agents self))).

Definition spec_fairness_penalty (self : MasterProblem)
  (rho : nat -> nat -> Qc) : Qc :=
  if String.eqb (fairness_scope self) "timestep" then
    np_sum (map (fun t =>
                   variance_penalty_value
                     (map (expected_claim rho (claim_of t))
                          (enumerate (agents self))))
                (range (horizon self)))
  else
    variance_penalty_value
      (map (expected_claim rho cumulative_claim_of) (enumerate (agents self))).

Definition spec_objective (self : MasterProblem) (rho : nat -> nat -> Qc)
  : Qc :=
  (spec_reward self rho -
   (if Qc_ltb 0%Qc (langrangian_weight self)
    then langrangian_weight self * spec_fairness_penalty self rho
    else 0))%Qc.

(** The number of calls of [variance_penalty] whose result stands in an
    expression. *)
Fixpoint penalty_calls (e : expr) : nat :=
  match e with
  | ENum _ | EVar _ _ => 0
  | EAdd e1 e2 | ESub e1 e2 | EMul e1 e2 => penalty_calls e1 + penalty_calls e2
  | EVariancePenalty _ => 1
  end.

(** [self] with another [fairness_type]. *)
Definition set_fairness_type (self : MasterProblem) (ftype : string)
  : MasterProblem :=
  {| agents := agents self; horizon := horizon self;
     num_agents := num_agents self;
     resource_capacity := resource_capacity self;
     langrangian_weight := langrangian_weight self;
     fairness_type := ftype;
     fairness_scope := fairness_scope self;
     decision_vars := decision_vars self; lp := lp self;
     resource_constraints := resource_constraints self |}.

(** The constraints in plain terms: no variable is negative, the variables
    of each agent sum to 1, and in each period the expected claims of all
    agents together stay within the capacity. *)
Definition weight_sum (rho : nat -> nat -> Qc) (p : nat * Agent.t) : Qc :=
  np_sum (map (rho (fst p)) (range (length (Agent.get_columns (snd p))))).

Definition expected_total_claim (self : MasterProblem)
  (rho : nat -> nat -> Qc) (t : nat) : Qc :=
  np_sum (map (expected_claim rho (claim_of t)) (enumerate (agents self))).

Definition meets_constraints (self : MasterProblem) (rho : nat -> nat -> Qc)
  : Prop :=
  (forall a c, (0 <= rho a c)%Qc) /\
  (forall p, In p (enumerate (agents self)) -> weight_sum rho p = 1%Qc) /\
  (forall t, t < horizon self ->
             (expected_total_claim self rho t <= resource_capacity self)%Qc).

(** [self] with another [resource_capacity] or [fairness_scope]. *)
Definition set_resource_capacity (self : MasterProblem) (capacity : Qc)
  : MasterProblem :=
  {| agents := agents self; horizon := horizon self;
     num_agents := num_agents self;
     resource_capacity := capacity;
     langrangian_weight := langrangian_weight self;
     fairness_type := fairness_type self;
     fairness_scope := fairness_scope self;
     decision_vars := decision_vars self; lp := lp self;
     resource_constraints := resource_constraints self |}.

Definition set_fairness_scope (self : MasterProblem) (fscope : string)
  : MasterProblem :=
  {| agents := agents self; horizon := horizon self;
     num_agents := num_agents self;
     resource_capacity := resource_capacity self;
     langrangian_weight := langrangian_weight self;
     fairness_type := fairness_type self;
     fairness_scope := fscope;
     decision_vars := decision_vars self; lp := lp self;
     resource_constraints := resource_constraints self |}.

(** *** Instances for the edge cases *)

(** An agent that offers no column. *)
Definition idle_agent : Agent.t :=
  {| Agent.horizon := 1; Agent.fixed_cost_vector := [0%Qc];
     Agent.get_columns := [] |}.

(** Scenario B with its second agent replaced by an idle one, and with two
    idle agents. *)
Definition idle_instance : MasterProblem :=
  set_agents scenario_B [unit_agent 1%Qc; idle_agent].

Definition no_columns_instance : MasterProblem :=
  set_agents scenario_B [idle_agent; idle_agent].

(** Scenario B after the caller removed the second agent from the list it
    had passed to the constructor: [self.agents] is that list, while
    [num_agents] keeps the count taken at construction. *)
Definition shrunk_instance : MasterProblem :=
  set_agents scenario_B [unit_agent 1%Qc].

(** One agent with horizon 2 whose only column has a single claim. *)
Definition short_agent : Agent.t :=
  {| Agent.horizon := 2; Agent.fixed_cost_vector := [0%Qc; 0%Qc];
     Agent.get_columns := [unit_column 1%Qc] |}.

Definition short_instance : MasterProblem :=
  {| agents := [short_agent]; horizon := 2; num_agents := 1;
     resource_capacity := default_resource_capacity;
     langrangian_weight := default_langrangian_weight;
     fairness_type := default_fairness_type;
     fairness_scope := default_fairness_scope;
     decision_vars := []; lp := None; resource_constraints := [] |}.

(** The constraints met up to the tolerance [eps]. *)
Definition meets_constraints_within (eps : Qc) (self : MasterProblem)
  (rho : nat -> nat -> Qc) : Prop :=
  (forall a c, (0 <= rho a c)%Qc) /\
  (forall p, In p (enumerate (agents self)) ->
             (1 - eps <= weight_sum rho p)%Qc /\
             (weight_sum rho p <= 1 + eps)%Qc) /\
  (forall t, t < horizon self ->
             (expected_total_claim self rho t <=
              resource_capacity self + eps)%Qc).

(** ** Facts about the error monad and the list helpers *)

Lemma bind_inr {A B : Type} (m : result A) (k : A -> result B) (y : B) :
  bind m k = inr y -> exists x, m = inr x /\ k x = inr y.
Proof.
  destruct m as [e | x]; simpl; intros H.
  - discriminate.
  - exists x; split; [reflexivity | exact H].
Qed.

Lemma bind_inl {A B : Type} (m : result A) (k : A -> result B) (e : exn) :
  m = inl e -> bind m k = inl e.
Proof. intros ->; reflexivity. Qed.

Lemma index_inr {A : Type} (l : list A) (i : nat) (x : A) :
  index l i = inr x <-> nth_error l i = Some x.
Proof.
  unfold index; destruct (nth_error l i); simpl; split; intros H;
    inversion H; subst; reflexivity.
Qed.



(** A [mapM] whose steps all succeed is a [map]. *)
Lemma mapM_ok {A B : Type} (f : A -> result B) (g : A -> B) (l : list A) :
  (forall x, In x l -> f x = inr (g x)) -> mapM f l = inr (map g l).
Proof.
  induction l as [| x l IH]; simpl; intros H.
  - reflexivity.
  - rewrite (H x (or_introl eq_refl)); simpl.
    rewrite IH by (intros; apply H; right; assumption).
    reflexivity.
Qed.

(** A successful [mapM] whose successful steps agree with [g] is [map g]. *)
Lemma mapM_inv {A B : Type} (f : A -> result B) (g : A -> B) (l : list A)
  (ys : list B) :
  (forall x y, In x l -> f x = inr y -> y = g x) ->
  mapM f l = inr ys -> ys = map g l.
Proof.
  revert ys; induction l as [| x l IH]; simpl; intros ys Hg H.
  - inversion H; reflexivity.
  - apply bind_inr in H as (y & Hy & H).
    apply bind_inr in H as (ys' & Hl & H).
    inversion H; subst; clear H.
    f_equal.
    + apply Hg; [left; reflexivity | exact Hy].
    + apply IH; [intros; eapply Hg; eauto | exact Hl].
Qed.

Lemma mapM_ext {A B : Type} (f g : A -> result B) (l : list A) :
  (forall x, In x l -> f x = g x) -> mapM f l = mapM g l.
Proof.
  induction l as [| x l IH]; simpl; intros H.
  - reflexivity.
  - rewrite (H x (or_introl eq_refl)).
    rewrite IH by (intros; apply H; right; assumption).
    reflexivity.
Qed.

(** The first failing step of a [mapM] is its outcome. *)
Lemma mapM_first_error {A B : Type} (f : A -> result B) (x : A) (l : list A)
  (e : exn) :
  f x = inl e -> mapM f (x :: l) = inl e.
Proof. intros H; simpl; rewrite H; reflexivity. Qed.

Lemma foldM_ok {A B : Type} (f : B -> A -> result B) (g : B -> A -> B)
  (l : list A) (acc : B) :
  (forall b x, In x l -> f b x = inr (g b x)) ->
  foldM f l acc = inr (fold_left g l acc).
Proof.
  revert acc; induction l as [| x l IH]; simpl; intros acc H.
  - reflexivity.
  - rewrite (H acc x (or_introl eq_refl)); simpl.
    apply IH; intros; apply H; right; assumption.
Qed.

Lemma foldM_inv {A B : Type} (f : B -> A -> result B) (g : B -> A -> B)
  (l : list A) (acc r : B) :
  (forall b x y, In x l -> f b x = inr y -> y = g b x) ->
  foldM f l acc = inr r -> r = fold_left g l acc.
Proof.
  revert acc; induction l as [| x l IH]; simpl; intros acc Hg H.
  - inversion H; reflexivity.
  - apply bind_inr in H as (y & Hy & H).
    rewrite <- (Hg acc x y (or_introl eq_refl) Hy).
    apply IH; [intros; eapply Hg; eauto | exact H].
Qed.

Lemma foldM_ext {A B : Type} (f g : B -> A -> result B) (l : list A) (acc : B) :
  (forall b x, In x l -> f b x = g b x) -> foldM f l acc = foldM g l acc.
Proof.
  revert acc; induction l as [| x l IH]; simpl; intros acc H.
  - reflexivity.
  - rewrite (H acc x (or_introl eq_refl)).
    destruct (g acc x); simpl; [reflexivity |].
    apply IH; intros; apply H; right; assumption.
Qed.

Lemma in_range (n i : nat) : In i (range n) <-> i < n.
Proof. unfold range; rewrite in_seq; lia. Qed.

Lemma nth_error_range (n i : nat) : i < n -> nth_error (range n) i = Some i.
Proof.
  intros H; unfold range.
  rewrite nth_error_nth' with (d := 0) by (rewrite length_seq; exact H).
  rewrite seq_nth by exact H; reflexivity.
Qed.

Lemma nth_error_range_inv (n i j : nat) :
  nth_error (range n) i = Some j -> j = i /\ i < n.
Proof.
  intros H.
  assert (Hi : i < n).
  { assert (Hl : i < length (range n))
      by (apply nth_error_Some; rewrite H; discriminate).
    unfold range in Hl; rewrite length_seq in Hl; exact Hl. }
  rewrite (nth_error_range n i Hi) in H; split; [congruence | exact Hi].
Qed.

Lemma length_enumerate_from {A : Type} (i : nat) (l : list A) :
  length (enumerate_from i l) = length l.
Proof. revert i; induction l; simpl; intros; [| rewrite IHl]; reflexivity. Qed.

Lemma nth_error_enumerate_from {A : Type} (i k : nat) (l : list A) :
  nth_error (enumerate_from i l) k =
  option_map (fun x => (i + k, x)) (nth_error l k).
Proof.
  revert i k; induction l as [| x l IH]; intros i [| k]; simpl;
    try reflexivity.
  - rewrite Nat.add_0_r; reflexivity.
  - rewrite IH; rewrite Nat.add_succ_r; reflexivity.
Qed.

Lemma in_enumerate_from {A : Type} (i : nat) (l : list A) (p : nat * A) :
  In p (enumerate_from i l) ->
  i <= fst p /\ nth_error l (fst p - i) = Some (snd p).
Proof.
  intros H; apply In_nth_error in H as (k & Hk).
  rewrite nth_error_enumerate_from in Hk.
  destruct (nth_error l k) eqn:E; simpl in Hk; inversion Hk; subst; simpl.
  split; [lia |].
  replace (i + k - i) with k by lia; exact E.
Qed.

Lemma in_enumerate {A : Type} (l : list A) (p : nat * A) :
  In p (enumerate l) -> nth_error l (fst p) = Some (snd p).
Proof.
  intros H; apply in_enumerate_from in H as (_ & H).
  rewrite Nat.sub_0_r in H; exact H.
Qed.

(** ** The shape of the decision variables *)

Lemma create_decision_vars_vars_of (ags : list Agent.t) :
  create_decision_vars ags = vars_of (fun _ _ => None) ags.
Proof. reflexivity. Qed.

Lemma solved_vars_of (sol : Solution) (val : nat -> nat -> option Qc)
  (ags : list Agent.t) :
  map (map (solved_var sol)) (vars_of val ags) = vars_of (primal sol) ags.
Proof.
  unfold vars_of; rewrite map_map; apply map_ext; intros p.
  rewrite map_map; apply map_ext; intros c; reflexivity.
Qed.

Lemma nth_error_vars_of (val : nat -> nat -> option Qc) (ags : list Agent.t)
  (a : nat) (agent : Agent.t) :
  nth_error ags a = Some agent ->
  nth_error (vars_of val ags) a =
  Some (map (fun c => {| var_agent := a; var_col := c; nonneg := true;
                         value := val a c |})
            (range (length (Agent.get_columns agent)))).
Proof.
  intros H; unfold vars_of, enumerate.
  rewrite nth_error_map, nth_error_enumerate_from, H; reflexivity.
Qed.

Lemma decision_var_vars_of (self : MasterProblem)
  (val : nat -> nat -> option Qc) (a c : nat) (agent : Agent.t) :
  decision_vars self = vars_of val (agents self) ->
  nth_error (agents self) a = Some agent ->
  c < length (Agent.get_columns agent) ->
  decision_var self a c =
  inr {| var_agent := a; var_col := c; nonneg := true; value := val a c |}.
Proof.
  intros Hdv Ha Hc; unfold decision_var.
  rewrite Hdv; unfold index.
  rewrite (nth_error_vars_of val _ _ _ Ha); simpl.
  rewrite nth_error_map, nth_error_range by exact Hc.
  reflexivity.
Qed.

Lemma in_enumerate_lt {A : Type} (l : list A) (p : nat * A) :
  In p (enumerate l) -> fst p < length l.
Proof.
  intros H; apply in_enumerate in H.
  apply nth_error_Some; rewrite H; discriminate.
Qed.

Lemma in_enumerate_in {A : Type} (l : list A) (p : nat * A) :
  In p (enumerate l) -> In (snd p) l.
Proof. intros H; apply in_enumerate in H; eapply nth_error_In; eauto. Qed.

(** ** Formulation succeeds on well-formed instances *)

Lemma weighted_expr_ok (self : MasterProblem) (val : nat -> nat -> option Qc)
  (coef : Column -> result Qc) (k : Column -> Qc) (a : nat) (agent : Agent.t)
  (start : expr) :
  decision_vars self = vars_of val (agents self) ->
  nth_error (agents self) a = Some agent ->
  (forall column, In column (Agent.get_columns agent) ->
                  coef column = inr (k column)) ->
  weighted_expr self coef a agent start =
  inr (weighted_expr_of k a (Agent.get_columns agent) start).
Proof.
  intros Hdv Ha Hk; unfold weighted_expr, weighted_expr_of.
  apply foldM_ok; intros acc p Hp.
  rewrite (decision_var_vars_of self val a (fst p) agent Hdv Ha)
    by (apply in_enumerate_lt; exact Hp).
  simpl; rewrite (Hk (snd p)) by (apply in_enumerate_in; exact Hp).
  reflexivity.
Qed.

Lemma claim_at_ok (t : nat) (column : Column) :
  t < length (claims column) -> claim_at t column = inr (claim_of t column).
Proof.
  intros H; unfold claim_at, claim_of, index.
  rewrite nth_error_nth' with (d := 0%Qc) by exact H; reflexivity.
Qed.

Lemma well_formed_claim_at (self : MasterProblem) (agent : Agent.t) (t : nat) :
  well_formed self -> In agent (agents self) -> t < horizon self ->
  forall column, In column (Agent.get_columns agent) ->
                 claim_at t column = inr (claim_of t column).
Proof.
  intros (_ & Hwf) Hin Ht column Hc.
  rewrite Forall_forall in Hwf; destruct (Hwf agent Hin) as (_ & Hcols).
  rewrite Forall_forall in Hcols; destruct (Hcols column Hc) as (Hl & _).
  apply claim_at_ok; lia.
Qed.

Lemma enumerate_from_seq {A : Type} (d : A) (i : nat) (l : list A) :
  enumerate_from i l = map (fun a => (a, nth (a - i) l d)) (seq i (length l)).
Proof.
  revert i; induction l as [| x l IH]; intros i; simpl; [reflexivity |].
  rewrite Nat.sub_diag; f_equal.
  rewrite IH; apply map_ext_in; intros a Ha.
  apply in_seq in Ha.
  replace (a - i) with (S (a - S i)) by lia; reflexivity.
Qed.

Lemma enumerate_range {A : Type} (d : A) (l : list A) :
  enumerate l = map (fun a => (a, nth a l d)) (range (length l)).
Proof.
  unfold enumerate, range; rewrite (enumerate_from_seq d).
  apply map_ext; intros a; rewrite Nat.sub_0_r; reflexivity.
Qed.

Lemma mapM_map {A B C : Type} (f : B -> result C) (g : A -> B) (l : list A) :
  mapM f (map g l) = mapM (fun x => f (g x)) l.
Proof.
  induction l as [| x l IH]; simpl; [| rewrite IH]; reflexivity.
Qed.

(** A loop [for a in range(len(l)): ... l[a] ...] is a loop over
    [enumerate(l)]. *)
Lemma mapM_range_index {A B : Type} (F : nat -> A -> result B) (l : list A) :
  mapM (fun a => x <- index l a ;; F a x) (range (length l)) =
  mapM (fun p => F (fst p) (snd p)) (enumerate l).
Proof.
  destruct l as [| d l']; [reflexivity |].
  rewrite (enumerate_range d (d :: l')), mapM_map.
  apply mapM_ext; intros a Ha; apply in_range in Ha.
  unfold index; rewrite (nth_error_nth' _ d Ha); reflexivity.
Qed.

Lemma mapM_agents (self : MasterProblem) {B : Type}
  (F : nat -> Agent.t -> result B) :
  num_agents self = length (agents self) ->
  mapM (fun a => agent <- index (agents self) a ;; F a agent)
       (range (num_agents self)) =
  mapM (fun p => F (fst p) (snd p)) (enumerate (agents self)).
Proof. intros ->; apply mapM_range_index. Qed.

Lemma agent_constraints_ok (self : MasterProblem) :
  num_agents self = length (agents self) ->
  decision_vars self = create_decision_vars (agents self) ->
  agent_constraints self = inr (map agent_constraint_of (enumerate (agents self))).
Proof.
  intros Hn Hdv; unfold agent_constraints.
  rewrite Hn, Hdv, create_decision_vars_vars_of.
  destruct (agents self) as [| d ags'] eqn:E; [reflexivity |].
  rewrite <- E; clear E.
  rewrite (enumerate_range d (agents self)), map_map.
  apply mapM_ok; intros a Ha; apply in_range in Ha.
  unfold index.
  rewrite (nth_error_vars_of _ _ a (nth a (agents self) d))
    by (apply nth_error_nth'; exact Ha).
  reflexivity.
Qed.

Lemma expected_total_claims_ok (self : MasterProblem)
  (val : nat -> nat -> option Qc) (t : nat) :
  well_formed self ->
  decision_vars self = vars_of val (agents self) ->
  t < horizon self ->
  expected_total_claims self t = inr (total_claims_expr (agents self) t).
Proof.
  intros Hwf Hdv Ht; unfold expected_total_claims, total_claims_expr.
  apply foldM_ok; intros acc p Hp.
  apply (weighted_expr_ok self val).
  - exact Hdv.
  - apply in_enumerate; exact Hp.
  - apply (well_formed_claim_at self (snd p) t Hwf); [| exact Ht].
    apply in_enumerate_in; exact Hp.
Qed.

Lemma resource_loop_ok (self : MasterProblem) (val : nat -> nat -> option Qc)
  (ts : list nat) :
  well_formed self ->
  decision_vars self = vars_of val (agents self) ->
  Forall (fun t => t < horizon self) ts ->
  resource_loop self ts =
  (set_resource_constraints
     self (resource_constraints self ++ map (resource_constraint_of self) ts),
   None).
Proof.
  intros Hwf Hdv; revert self Hwf Hdv.
  induction ts as [| t ts IH]; intros self Hwf Hdv Hts; simpl.
  - rewrite app_nil_r; destruct self; reflexivity.
  - inversion Hts as [| ? ? Ht Hts']; subst.
    rewrite (expected_total_claims_ok self val t Hwf Hdv Ht).
    set (self' := set_resource_constraints self _).
    rewrite (IH self'); [| exact Hwf | exact Hdv | exact Hts'].
    simpl; rewrite <- app_assoc; reflexivity.
Qed.

Lemma expected_claims_ok (self : MasterProblem) (val : nat -> nat -> option Qc)
  (coef : Column -> result Qc) (k : Column -> Qc) :
  num_agents self = length (agents self) ->
  decision_vars self = vars_of val (agents self) ->
  (forall agent column,
      In agent (agents self) -> In column (Agent.get_columns agent) ->
      coef column = inr (k column)) ->
  expected_claims self coef = inr (penalty_args self k).
Proof.
  intros Hn Hdv Hk; unfold expected_claims, penalty_args.
  rewrite (mapM_agents self
             (fun a agent => weighted_expr self coef a agent (ENum 0%Qc)) Hn).
  apply mapM_ok; intros p Hp.
  apply (weighted_expr_ok self val).
  - exact Hdv.
  - apply in_enumerate; exact Hp.
  - intros column Hc; apply (Hk (snd p)); [| exact Hc].
    apply in_enumerate_in; exact Hp.
Qed.

Lemma subtract_penalty_ok (self : MasterProblem)
  (val : nat -> nat -> option Qc) :
  well_formed self ->
  decision_vars self = vars_of val (agents self) ->
  penalty_configured self ->
  subtract_penalty self (ENum 0%Qc) = inr (penalized_of self).
Proof.
  intros Hwf Hdv Hcfg; unfold subtract_penalty, penalized_of.
  destruct (Qc_ltb 0%Qc (langrangian_weight self)) eqn:Hw; [| reflexivity].
  destruct (Hcfg Hw) as (Hty & Hsc).
  destruct (String.eqb (fairness_scope self) "timestep") eqn:Ets.
  - apply foldM_ok; intros acc t Ht; apply in_range in Ht.
    rewrite (expected_claims_ok self val (claim_at t) (claim_of t));
      [| apply Hwf | exact Hdv |].
    + unfold fairness_penalty; rewrite Hty; reflexivity.
    + intros agent column Ha Hc.
      apply (well_formed_claim_at self agent t Hwf Ha Ht column Hc).
  - destruct Hsc as [Hsc | Hsc].
    + rewrite Hsc in Ets; discriminate.
    + rewrite Hsc; simpl.
      rewrite (expected_claims_ok self val cumulative_claim cumulative_claim_of);
        [| apply Hwf | exact Hdv | reflexivity].
      unfold fairness_penalty; rewrite Hty; reflexivity.
Qed.

Lemma net_value_ok (h : nat) (agent : Agent.t) (column : Column) :
  well_formed_agent h agent -> In column (Agent.get_columns agent) ->
  net_value agent column = inr (net_value_of agent column).
Proof.
  intros (Hf & Hcols) Hc.
  rewrite Forall_forall in Hcols; destruct (Hcols column Hc) as (Hl & _).
  unfold net_value, np_mul.
  rewrite Hf, Hl, Nat.eqb_refl; reflexivity.
Qed.

Lemma add_rewards_ok (self : MasterProblem) (val : nat -> nat -> option Qc)
  (start : expr) :
  well_formed self ->
  decision_vars self = vars_of val (agents self) ->
  add_rewards self start = inr (rewards_of (agents self) start).
Proof.
  intros Hwf Hdv; unfold add_rewards, rewards_of.
  apply foldM_ok; intros acc p Hp.
  apply foldM_ok; intros acc' q Hq.
  destruct Hwf as (_ & Hwf); rewrite Forall_forall in Hwf.
  rewrite (net_value_ok (horizon self) (snd p) (snd q));
    [| apply Hwf; apply in_enumerate_in; exact Hp
     | apply in_enumerate_in; exact Hq].
  simpl.
  rewrite (decision_var_vars_of self val (fst p) (fst q) (snd p) Hdv);
    [reflexivity | apply in_enumerate; exact Hp | apply in_enumerate_lt; exact Hq].
Qed.

(** On a well-formed instance the variables and constraints are always
    built; only the objective can still fail. *)
Lemma formulate_constraints_ok (self : MasterProblem) :
  well_formed self ->
  formulate self =
  (formulated self,
   match total_expected_reward (formulated self) with
   | inl e => inl e
   | inr total => inr {| objective := total;
                         constraints := constraints (problem_of self) |}
   end).
Proof.
  intros Hwf; unfold formulate.
  set (self1 := set_decision_vars self (create_decision_vars (agents self))).
  assert (Hwf1 : well_formed self1) by exact Hwf.
  assert (Hdv1 : decision_vars self1 = vars_of (fun _ _ => None) (agents self1))
    by reflexivity.
  rewrite (agent_constraints_ok self1 (proj1 Hwf1) eq_refl).
  rewrite (resource_loop_ok (set_resource_constraints self1 [])
             (fun _ _ => None) (range (horizon self1)) Hwf1 Hdv1)
    by (apply Forall_forall; intros t Ht; apply in_range in Ht; exact Ht).
  set (self2 := set_resource_constraints (set_resource_constraints self1 []) _).
  assert (E2 : self2 = formulated self) by reflexivity.
  clearbody self2; subst self2.
  destruct (total_expected_reward (formulated self)); reflexivity.
Qed.

Lemma total_expected_reward_ok (self : MasterProblem)
  (val : nat -> nat -> option Qc) :
  well_formed self ->
  decision_vars self = vars_of val (agents self) ->
  penalty_configured self ->
  total_expected_reward self = inr (rewards_of (agents self) (penalized_of self)).
Proof.
  intros Hwf Hdv Hcfg; unfold total_expected_reward.
  rewrite (subtract_penalty_ok self val Hwf Hdv Hcfg); simpl.
  apply (add_rewards_ok self val _ Hwf Hdv).
Qed.

(** On a well-formed instance whose fairness switch is configured, the
    formulation runs to the end and builds [problem_of]. *)
Lemma formulate_ok (self : MasterProblem) :
  well_formed self -> penalty_configured self ->
  formulate self = (formulated self, inr (problem_of self)).
Proof.
  intros Hwf Hcfg.
  rewrite (formulate_constraints_ok self Hwf).
  rewrite (total_expected_reward_ok (formulated self) (fun _ _ => None));
    [reflexivity | exact Hwf | reflexivity | exact Hcfg].
Qed.

(** The state after [lp.solve()] on a well-formed, configured instance. *)
Lemma solve_ok (self : MasterProblem) :
  well_formed self -> penalty_configured self ->
  solve self =
  (store_solution (formulated self) (problem_of self)
                  (cvx_solve (problem_of self)),
   report (store_solution (formulated self) (problem_of self)
                          (cvx_solve (problem_of self)))).
Proof.
  intros Hwf Hcfg; unfold solve.
  rewrite (formulate_ok self Hwf Hcfg); reflexivity.
Qed.

Lemma unknown_scope (self : MasterProblem) :
  fairness_scope self <> "timestep" -> fairness_scope self <> "cumulative" ->
  String.eqb (fairness_scope self) "timestep" = false /\
  String.eqb (fairness_scope self) "cumulative" = false.
Proof.
  intros H1 H2; split; apply String.eqb_neq; assumption.
Qed.

Lemma two_agents_well_formed (claim0 claim1 capacity weight : Qc)
  (fscope : string) :
  well_formed (two_agents claim0 claim1 capacity weight fscope).
Proof.
  split; [reflexivity |].
  repeat constructor.
Defined.

(** ** Unknown fairness scope *)

(** C3, as amended. With a [fairness_scope] other than "timestep" and "cumulative",
    [compute_fairness_gradients] and [compute_realized_fairness_penalty]
    raise [ValueError] on every state, each from its own check, and on a
    well-formed instance [solve] raises [ValueError] too: from the check of
    the objective assembly, before any problem is built, when
    [langrangian_weight > 0]. Otherwise the objective assembly does not
    look at the scope: the problem is built and handed to the solver, and
    the error comes from the gradient computation that follows. *)
Theorem unknown_fairness_scope_raises (self : MasterProblem) :
  fairness_scope self <> "timestep" ->
  fairness_scope self <> "cumulative" ->
  compute_fairness_gradients self =
    inl (ValueError "Unknown fairness_scope option") /\
  compute_realized_fairness_penalty self =
    inl (ValueError "Unknown fairness_scope") /\
  (well_formed self ->
   snd (solve self) = inl (ValueError "Unknown fairness_scope option") /\
   (Qc_ltb 0%Qc (langrangian_weight self) = true ->
    snd (formulate self) = inl (ValueError "Unknown fairness_scope option") /\
    lp (fst (solve self)) = lp self) /\
   (Qc_ltb 0%Qc (langrangian_weight self) = false ->
    snd (formulate self) = inr (problem_of self) /\
    lp (fst (solve self)) =
    Some {| lp_problem := problem_of self;
            lp_status := status (cvx_solve (problem_of self));
            lp_value := opt_value (cvx_solve (problem_of self)) |})).
Proof.
  intros H1 H2; destruct (unknown_scope self H1 H2) as (E1 & E2).
  split; [| split].
  - unfold compute_fairness_gradients; rewrite E1, E2; reflexivity.
  - unfold compute_realized_fairness_penalty; rewrite E1, E2; reflexivity.
  - intros Hwf.
    destruct (Qc_ltb 0%Qc (langrangian_weight self)) eqn:Hw.
    + assert (Hform : formulate self =
                      (formulated self,
                       inl (ValueError "Unknown fairness_scope option"))).
      { rewrite (formulate_constraints_ok self Hwf).
        unfold total_expected_reward, subtract_penalty.
        change (langrangian_weight (formulated self))
          with (langrangian_weight self).
        change (fairness_scope (formulated self)) with (fairness_scope self).
        rewrite Hw, E1, E2; reflexivity. }
      unfold solve; rewrite Hform; cbn [fst snd].
      split; [reflexivity |].
      split; [intros _; split; reflexivity | discriminate].
    + assert (Hcfg : penalty_configured self)
        by (intros Hw'; congruence).
      split; [| split; [discriminate |]].
      * rewrite (solve_ok self Hwf Hcfg).
        simpl; unfold report, compute_fairness_gradients.
        change (fairness_scope (store_solution _ _ _))
          with (fairness_scope self).
        rewrite E1, E2; reflexivity.
      * intros _; split.
        -- rewrite (formulate_ok self Hwf Hcfg); reflexivity.
        -- rewrite (solve_ok self Hwf Hcfg); reflexivity.
Qed.

(** ** The horizon of the other agents is never read *)

Lemma Forall2_enumerate_from {A : Type} (R : A -> A -> Prop) (i : nat)
  (l l' : list A) :
  Forall2 R l l' ->
  Forall2 (fun p p' => fst p = fst p' /\ R (snd p) (snd p'))
          (enumerate_from i l) (enumerate_from i l').
Proof.
  intros H; revert i; induction H; intros i; simpl; constructor; auto.
Qed.

Lemma map_Forall2 {A B : Type} (R : A -> A -> Prop) (f : A -> B)
  (l l' : list A) :
  Forall2 R l l' -> (forall x x', R x x' -> f x = f x') -> map f l = map f l'.
Proof.
  intros H Hf; induction H; simpl; [reflexivity |].
  f_equal; auto.
Qed.

Lemma mapM_Forall2 {A B : Type} (R : A -> A -> Prop) (f g : A -> result B)
  (l l' : list A) :
  Forall2 R l l' -> (forall x x', R x x' -> f x = g x') ->
  mapM f l = mapM g l'.
Proof.
  intros H Hf; induction H; simpl; [reflexivity |].
  rewrite (Hf _ _ H), IHForall2; reflexivity.
Qed.

Lemma foldM_Forall2 {A B : Type} (R : A -> A -> Prop) (f g : B -> A -> result B)
  (l l' : list A) (acc : B) :
  Forall2 R l l' -> (forall b x x', R x x' -> f b x = g b x') ->
  foldM f l acc = foldM g l' acc.
Proof.
  intros H Hf; revert acc; induction H; intros acc; simpl; [reflexivity |].
  rewrite (Hf acc _ _ H); destruct (g acc y); simpl; auto.
Qed.

Lemma index_Forall2 {A B : Type} (R : A -> A -> Prop) (F G : A -> result B)
  (l l' : list A) (a : nat) :
  Forall2 R l l' -> (forall x x', R x x' -> F x = G x') ->
  bind (index l a) F = bind (index l' a) G.
Proof.
  intros H Hf; revert a; induction H; intros [| a]; simpl; auto.
  apply IHForall2.
Qed.

Lemma resource_loop_config (s : MasterProblem) (ts : list nat) :
  same_config s (fst (resource_loop s ts)) /\
  decision_vars (fst (resource_loop s ts)) = decision_vars s /\
  lp (fst (resource_loop s ts)) = lp s.
Proof.
  revert s; induction ts as [| t ts IH]; intros s; simpl.
  - repeat split.
  - destruct (expected_total_claims s t) as [e | total]; simpl;
      [repeat split |].
    destruct (IH (set_resource_constraints
                    s (resource_constraints s ++
                       [py_le (num_agents s + t) total (resource_capacity s)])))
      as (Hc & Hd & Hl).
    split; [exact Hc | split; [exact Hd | exact Hl]].
Qed.

(** [formulate] rebuilds the variables and leaves the configuration alone,
    whatever its outcome. *)
Lemma formulate_config (s : MasterProblem) :
  same_config s (fst (formulate s)) /\
  decision_vars (fst (formulate s)) = create_decision_vars (agents s) /\
  lp (fst (formulate s)) = lp s.
Proof.
  unfold formulate.
  set (s1 := set_decision_vars s (create_decision_vars (agents s))).
  destruct (agent_constraints s1) as [e | acs]; [repeat split |].
  destruct (resource_loop_config (set_resource_constraints s1 [])
                                 (range (horizon s1))) as (Hc & Hd & Hl).
  destruct (resource_loop (set_resource_constraints s1 []) (range (horizon s1)))
    as (s2 & [e |]); simpl in *.
  - split; [exact Hc | split; [exact Hd | exact Hl]].
  - destruct (total_expected_reward s2); simpl;
      (split; [exact Hc | split; [exact Hd | exact Hl]]).
Qed.

Section OtherHorizons.

Variables ags ags' : list Agent.t.
Hypothesis Hsame : Forall2 same_plan ags ags'.

Lemma enumerate_same :
  Forall2 (fun p p' => fst p = fst p' /\ same_plan (snd p) (snd p'))
          (enumerate ags) (enumerate ags').
Proof. apply Forall2_enumerate_from; exact Hsame. Qed.

Lemma create_decision_vars_same :
  create_decision_vars ags' = create_decision_vars ags.
Proof.
  unfold create_decision_vars; symmetry.
  apply (map_Forall2 _ _ _ _ enumerate_same).
  intros p p' (Hi & _ & Hc); unfold new_agent_vars; rewrite Hi, Hc; reflexivity.
Qed.

Lemma weighted_expr_same (s : MasterProblem) (coef : Column -> result Qc)
  (a : nat) (x x' : Agent.t) (start : expr) :
  same_plan x x' ->
  weighted_expr s coef a x start =
  weighted_expr (set_agents s ags') coef a x' start.
Proof. intros (_ & Hc); unfold weighted_expr; rewrite Hc; reflexivity. Qed.

Lemma weighted_value_same (s : MasterProblem) (coef : Column -> result Qc)
  (a : nat) (x x' : Agent.t) (start : Qc) :
  same_plan x x' ->
  weighted_value s coef a x start =
  weighted_value (set_agents s ags') coef a x' start.
Proof. intros (_ & Hc); unfold weighted_value; rewrite Hc; reflexivity. Qed.

Lemma expected_total_claims_same (s : MasterProblem) (t : nat) :
  agents s = ags ->
  expected_total_claims (set_agents s ags') t = expected_total_claims s t.
Proof.
  intros Hs; unfold expected_total_claims; simpl; rewrite Hs; symmetry.
  apply (foldM_Forall2 _ _ _ _ _ _ enumerate_same).
  intros b p p' (Hi & Hp); rewrite Hi; apply weighted_expr_same; exact Hp.
Qed.

Lemma resource_loop_same (ts : list nat) (s : MasterProblem) :
  agents s = ags ->
  resource_loop (set_agents s ags') ts =
  (set_agents (fst (resource_loop s ts)) ags', snd (resource_loop s ts)).
Proof.
  revert s; induction ts as [| t ts IH]; intros s Hs; simpl; [reflexivity |].
  rewrite (expected_total_claims_same s t Hs).
  destruct (expected_total_claims s t) as [e | total]; [reflexivity |].
  apply (IH (set_resource_constraints s _)); exact Hs.
Qed.

Lemma expected_claims_same (s : MasterProblem) (coef : Column -> result Qc) :
  agents s = ags ->
  expected_claims (set_agents s ags') coef = expected_claims s coef.
Proof.
  intros Hs; unfold expected_claims; simpl; rewrite Hs.
  apply mapM_ext; intros a _; symmetry.
  apply (index_Forall2 _ _ _ _ _ a Hsame).
  intros x x' Hx; apply weighted_expr_same; exact Hx.
Qed.

Lemma subtract_penalty_same (s : MasterProblem) (total : expr) :
  agents s = ags ->
  subtract_penalty (set_agents s ags') total = subtract_penalty s total.
Proof.
  intros Hs; unfold subtract_penalty; simpl.
  destruct (Qc_ltb 0%Qc (langrangian_weight s)); [| reflexivity].
  destruct (String.eqb (fairness_scope s) "timestep").
  - apply foldM_ext; intros acc t _.
    rewrite (expected_claims_same s _ Hs); reflexivity.
  - destruct (String.eqb (fairness_scope s) "cumulative"); [| reflexivity].
    rewrite (expected_claims_same s _ Hs); reflexivity.
Qed.

Lemma net_value_same (x x' : Agent.t) (column : Column) :
  same_plan x x' -> net_value x column = net_value x' column.
Proof. intros (Hf & _); unfold net_value; rewrite Hf; reflexivity. Qed.

Lemma add_rewards_same (s : MasterProblem) (total : expr) :
  agents s = ags ->
  add_rewards (set_agents s ags') total = add_rewards s total.
Proof.
  intros Hs; unfold add_rewards; simpl; rewrite Hs; symmetry.
  apply (foldM_Forall2 _ _ _ _ _ _ enumerate_same).
  intros b p p' (Hi & Hp).
  destruct Hp as (Hf & Hc); rewrite Hi, Hc.
  apply foldM_ext; intros acc q _.
  rewrite (net_value_same (snd p) (snd p') (snd q) (conj Hf Hc)).
  reflexivity.
Qed.

Lemma total_expected_reward_same (s : MasterProblem) :
  agents s = ags ->
  total_expected_reward (set_agents s ags') = total_expected_reward s.
Proof.
  intros Hs; unfold total_expected_reward.
  rewrite (subtract_penalty_same s _ Hs).
  destruct (subtract_penalty s (ENum 0%Qc)); simpl; [reflexivity |].
  apply add_rewards_same; exact Hs.
Qed.

Lemma formulate_same (s : MasterProblem) :
  agents s = ags ->
  formulate (set_agents s ags') =
  (set_agents (fst (formulate s)) ags', snd (formulate s)).
Proof.
  intros Hs; unfold formulate; simpl agents.
  rewrite Hs, create_decision_vars_same.
  set (dv := create_decision_vars ags).
  change (agent_constraints (set_decision_vars (set_agents s ags') dv))
    with (agent_constraints (set_decision_vars s dv)).
  destruct (agent_constraints (set_decision_vars s dv)) as [e | acs];
    [reflexivity |].
  change (set_resource_constraints (set_decision_vars (set_agents s ags') dv) [])
    with (set_agents (set_resource_constraints (set_decision_vars s dv) []) ags').
  change (horizon (set_decision_vars (set_agents s ags') dv))
    with (horizon (set_decision_vars s dv)).
  rewrite resource_loop_same by exact Hs.
  destruct (resource_loop_config
              (set_resource_constraints (set_decision_vars s dv) [])
              (range (horizon (set_decision_vars s dv)))) as ((Ha & _) & _).
  destruct (resource_loop (set_resource_constraints (set_decision_vars s dv) [])
                          (range (horizon (set_decision_vars s dv))))
    as (s2 & [e |]); simpl in *; [reflexivity |].
  rewrite total_expected_reward_same by (rewrite Ha; exact Hs).
  destruct (total_expected_reward s2); reflexivity.
Qed.

Lemma numeric_claims_same (s : MasterProblem) (coef : Column -> result Qc) :
  agents s = ags ->
  numeric_claims (set_agents s ags') coef = numeric_claims s coef.
Proof.
  intros Hs; unfold numeric_claims; simpl; rewrite Hs.
  apply mapM_ext; intros a _; symmetry.
  apply (index_Forall2 _ _ _ _ _ a Hsame).
  intros x x' Hx; apply weighted_value_same; exact Hx.
Qed.

Lemma compute_fairness_gradients_same (s : MasterProblem) :
  agents s = ags ->
  compute_fairness_gradients (set_agents s ags') = compute_fairness_gradients s.
Proof.
  intros Hs; unfold compute_fairness_gradients; simpl.
  destruct (String.eqb (fairness_scope s) "timestep").
  - f_equal; apply mapM_ext; intros t _.
    rewrite (numeric_claims_same s _ Hs); reflexivity.
  - destruct (String.eqb (fairness_scope s) "cumulative"); [| reflexivity].
    rewrite (numeric_claims_same s _ Hs); reflexivity.
Qed.

Lemma compute_realized_fairness_penalty_same (s : MasterProblem) :
  agents s = ags ->
  compute_realized_fairness_penalty (set_agents s ags') =
  compute_realized_fairness_penalty s.
Proof.
  intros Hs; unfold compute_realized_fairness_penalty; simpl.
  destruct (String.eqb (fairness_scope s) "timestep").
  - apply foldM_ext; intros acc t _.
    rewrite (numeric_claims_same s _ Hs); reflexivity.
  - destruct (String.eqb (fairness_scope s) "cumulative"); [| reflexivity].
    rewrite (numeric_claims_same s _ Hs); reflexivity.
Qed.

Lemma report_same (s : MasterProblem) :
  agents s = ags -> report (set_agents s ags') = report s.
Proof.
  intros Hs; unfold report.
  rewrite (compute_fairness_gradients_same s Hs).
  rewrite (compute_realized_fairness_penalty_same s Hs).
  reflexivity.
Qed.

Lemma solve_same (s : MasterProblem) :
  agents s = ags ->
  solve (set_agents s ags') =
  (set_agents (fst (solve s)) ags', snd (solve s)).
Proof.
  intros Hs; unfold solve.
  rewrite (formulate_same s Hs).
  pose proof (formulate_config s) as ((Ha & _) & _).
  destruct (formulate s) as (s1 & [e | p]); simpl in *; [reflexivity |].
  change (store_solution (set_agents s1 ags') p (cvx_solve p))
    with (set_agents (store_solution s1 p (cvx_solve p)) ags').
  rewrite report_same by (simpl; rewrite Ha; exact Hs).
  reflexivity.
Qed.

End OtherHorizons.

(** C10. The constructor fails with [IndexError] on an empty list of
    agents; on a non-empty list it succeeds and takes the horizon from the
    first agent; replacing the other agents by agents with the same costs
    and columns and any horizons changes nothing but the stored list; and
    from then on no operation reads the horizon of any agent: on two
    instances that differ only in the agents' horizons, every operation
    returns the same result and [solve] leaves the same state. *)
Theorem horizon_comes_from_first_agent :
  (forall capacity weight ftype fscope,
      init [] capacity weight ftype fscope = inl IndexError) /\
  (forall first rest capacity weight ftype fscope,
      exists self,
        init (first :: rest) capacity weight ftype fscope = inr self /\
        horizon self = Agent.horizon first /\
        agents self = first :: rest /\
        num_agents self = length (first :: rest)) /\
  (forall first rest rest' capacity weight ftype fscope self,
      Forall2 same_plan rest rest' ->
      init (first :: rest) capacity weight ftype fscope = inr self ->
      init (first :: rest') capacity weight ftype fscope =
      inr (set_agents self (first :: rest'))) /\
  (forall self ags',
      Forall2 same_plan (agents self) ags' ->
      solve (set_agents self ags') =
        (set_agents (fst (solve self)) ags', snd (solve self)) /\
      compute_fairness_gradients (set_agents self ags') =
        compute_fairness_gradients self /\
      compute_realized_fairness_penalty (set_agents self ags') =
        compute_realized_fairness_penalty self /\
      get_dual_prices (set_agents self ags') = get_dual_prices self /\
      get_decision_distribution (set_agents self ags') =
        get_decision_distribution self).
Proof.
  split; [reflexivity | split; [| split]].
  - intros first rest capacity weight ftype fscope.
    eexists; split; [reflexivity |]; repeat split.
  - intros first rest rest' capacity weight ftype fscope self Hrest Hinit.
    inversion Hinit; subst; clear Hinit.
    unfold init, set_agents; simpl.
    rewrite (Forall2_length Hrest); reflexivity.
  - intros self ags' Hsame.
    split; [apply (solve_same (agents self) ags' Hsame self eq_refl) |].
    split; [apply (compute_fairness_gradients_same _ _ Hsame self eq_refl) |].
    split; [apply (compute_realized_fairness_penalty_same _ _ Hsame self eq_refl) |].
    split; reflexivity.
Qed.

(** ** Sums of rationals *)

Lemma fold_left_Qcplus (l : list Qc) (a : Qc) :
  fold_left Qcplus l a = (a + np_sum l)%Qc.
Proof.
  unfold np_sum; revert a; induction l as [| x l IH]; intros a; simpl.
  - ring.
  - rewrite (IH (a + x)%Qc), (IH (0 + x)%Qc); ring.
Qed.

Lemma np_sum_nil : np_sum [] = 0%Qc.
Proof. reflexivity. Qed.

Lemma np_sum_cons (x : Qc) (l : list Qc) : np_sum (x :: l) = (x + np_sum l)%Qc.
Proof. unfold np_sum at 1; simpl; rewrite fold_left_Qcplus; ring. Qed.

Lemma this_Q2Qc (q : Q) : (this (Q2Qc q) == q)%Q.
Proof. apply Qred_correct. Qed.

Lemma Qc_of_nat_S (n : nat) : Qc_of_nat (S n) = (Qc_of_nat n + 1)%Qc.
Proof.
  unfold Qc_of_nat, Qcplus; apply Q2Qc_eq_iff.
  rewrite this_Q2Qc, Nat2Z.inj_succ; unfold Z.succ.
  rewrite inject_Z_plus; reflexivity.
Qed.

Lemma Qc_of_nat_pos (n : nat) : 0 < n -> (0 < Qc_of_nat n)%Qc.
Proof.
  intros H; unfold Qc_of_nat, Qclt; rewrite !this_Q2Qc.
  unfold Qlt, inject_Z; cbn [Qnum Qden]; lia.
Qed.

Lemma Qclt_neq_0 (s : Qc) : (0 < s)%Qc -> s <> 0%Qc.
Proof. intros H E; rewrite E in H; revert H; apply Qcle_not_lt, Qcle_refl. Qed.

Lemma Qcle_0_div (w s : Qc) : (0 <= w)%Qc -> (0 < s)%Qc -> (0 <= w / s)%Qc.
Proof.
  intros Hw Hs; unfold Qcdiv.
  apply Qcmult_lt_0_le_reg_r with (z := s); [exact Hs |].
  rewrite Qcmult_0_l.
  replace (w * / s * s)%Qc with w; [exact Hw |].
  field; apply Qclt_neq_0; exact Hs.
Qed.

Lemma np_sum_nonneg (l : list Qc) :
  Forall (fun w => (0 <= w)%Qc) l -> (0 <= np_sum l)%Qc.
Proof.
  induction 1 as [| x l Hx Hl IH].
  - apply Qcle_refl.
  - rewrite np_sum_cons.
    replace 0%Qc with (0 + 0)%Qc by ring.
    apply Qcplus_le_compat; assumption.
Qed.

Lemma np_sum_map_div (l : list Qc) (s : Qc) :
  np_sum (map (fun w => (w / s)%Qc) l) = (np_sum l / s)%Qc.
Proof.
  induction l as [| x l IH]; simpl.
  - rewrite np_sum_nil; unfold Qcdiv; ring.
  - rewrite !np_sum_cons, IH; unfold Qcdiv; ring.
Qed.

Lemma np_sum_repeat (c : Qc) (n : nat) :
  np_sum (repeat c n) = (Qc_of_nat n * c)%Qc.
Proof.
  induction n as [| n IH]; simpl repeat.
  - rewrite np_sum_nil; apply Qc_is_canon; reflexivity.
  - rewrite np_sum_cons, IH, Qc_of_nat_S; ring.
Qed.

Lemma map_constant {A B : Type} (c : B) (l : list A) :
  map (fun _ => c) l = repeat c (length l).
Proof. induction l; simpl; [| rewrite IHl]; reflexivity. Qed.

Lemma Qc_eq_bool_iff (x y : Qc) : Qc_eq_bool x y = true <-> x = y.
Proof.
  unfold Qc_eq_bool; destruct (Qc_eq_dec x y); split; intros H;
    try reflexivity; try assumption; try discriminate; contradiction.
Qed.

(** ** The decision distribution *)

Lemma distribution_spec (a_vars : list CvVariable) :
  a_vars <> [] ->
  let raw := map value_or_zero a_vars in
  let n := length a_vars in
  length (distribution a_vars) = n /\
  (np_sum raw = 0%Qc ->
   distribution a_vars = repeat (1 / Qc_of_nat n)%Qc n) /\
  (np_sum raw <> 0%Qc ->
   distribution a_vars = map (fun w => (w / np_sum raw)%Qc) raw) /\
  np_sum (distribution a_vars) = 1%Qc /\
  (Forall (fun w => (0 <= w)%Qc) raw ->
   Forall (fun w => (0 <= w)%Qc) (distribution a_vars)).
Proof.
  intros Hne.
  assert (Hn : 0 < length a_vars)
    by (destruct a_vars; [contradiction | simpl; lia]).
  intros raw n; fold n in Hn.
  assert (Hraw : length raw = n) by apply length_map.
  assert (Hpos := Qc_of_nat_pos n Hn).
  unfold distribution; fold raw.
  destruct (Qc_eq_bool (np_sum raw) 0%Qc) eqn:E.
  - apply Qc_eq_bool_iff in E.
    rewrite map_constant, Hraw.
    split; [apply repeat_length |].
    split; [reflexivity |].
    split; [intros Hc; contradiction |].
    split.
    + rewrite np_sum_repeat; field; apply Qclt_neq_0; exact Hpos.
    + intros _; apply Forall_forall; intros w Hw.
      apply repeat_spec in Hw; subst w.
      apply Qcle_0_div; [| exact Hpos].
      unfold Qcle; simpl; discriminate.
  - assert (Hs : np_sum raw <> 0%Qc)
      by (intros Hc; apply Qc_eq_bool_iff in Hc; congruence).
    split; [rewrite length_map; exact Hraw |].
    split; [intros Hc; contradiction |].
    split; [reflexivity |].
    split.
    + rewrite np_sum_map_div; field; exact Hs.
    + intros Hnn.
      assert (Hsum : (0 < np_sum raw)%Qc).
      { destruct (Qcle_lt_or_eq _ _ (np_sum_nonneg raw Hnn)) as [H | H];
          [exact H | congruence]. }
      apply Forall_forall; intros w Hw.
      apply in_map_iff in Hw as (w0 & <- & Hw0).
      apply Qcle_0_div; [| exact Hsum].
      rewrite Forall_forall in Hnn; apply Hnn; exact Hw0.
Qed.

(** Whatever its outcome, [solve] leaves one variable per column of each
    agent, holding the solver's value when the solver was reached. *)
Lemma solve_decision_vars (self : MasterProblem) :
  decision_vars (fst (solve self)) = vars_of (solved_values self) (agents self).
Proof.
  unfold solve, solved_values.
  destruct (formulate_config self) as (_ & Hd & _).
  destruct (formulate self) as (s1 & [e | p]); simpl in *.
  - rewrite Hd; apply create_decision_vars_vars_of.
  - rewrite Hd, create_decision_vars_vars_of; apply solved_vars_of.
Qed.

Lemma solve_config (self : MasterProblem) :
  same_config self (fst (solve self)).
Proof.
  unfold solve.
  destruct (formulate_config self) as (Hc & _).
  destruct (formulate self) as (s1 & [e | p]); exact Hc.
Qed.

Lemma report_distribution (self : MasterProblem)
  (r : xvalue * list (list Qc) * Qc) :
  report self = inr r -> snd (fst r) = get_decision_distribution self.
Proof.
  unfold report; intros H.
  apply bind_inr in H as (gs & _ & H).
  apply bind_inr in H as (realized & _ & H).
  apply bind_inr in H as (solved & _ & H).
  inversion H; reflexivity.
Qed.

Lemma solve_distribution (self : MasterProblem)
  (r : xvalue * list (list Qc) * Qc) :
  snd (solve self) = inr r ->
  snd (fst r) = get_decision_distribution (fst (solve self)).
Proof.
  unfold solve; destruct (formulate self) as (s1 & [e | p]); simpl.
  - discriminate.
  - apply report_distribution.
Qed.

(** A solver that keeps its contract leaves no negative value. *)
Lemma solved_values_nonneg (self : MasterProblem) (eps : Qc) (a c : nat) :
  (forall problem,
      snd (formulate self) = inr problem ->
      solver_contract eps problem (cvx_solve problem)) ->
  (0 <= match solved_values self a c with
        | Some x => x
        | None => 0
        end)%Qc.
Proof.
  intros Hcontract; unfold solved_values.
  destruct (snd (formulate self)) as [e | problem]; [apply Qcle_refl |].
  specialize (Hcontract problem eq_refl); unfold solver_contract in Hcontract.
  destruct (status (cvx_solve problem)).
  - destruct Hcontract as (rho & (Hnn & _) & Hprimal & _).
    rewrite Hprimal; apply Hnn.
  - rewrite Hcontract; apply Qcle_refl.
  - rewrite Hcontract; apply Qcle_refl.
  - rewrite Hcontract; apply Qcle_refl.
Qed.

(** Equalities and inequalities over [Qc] read over [Q], where the
    arithmetic tactics work. *)
Lemma Qc_eq_Q (x y : Qc) : x = y <-> (this x == this y)%Q.
Proof. split; [intros ->; reflexivity | apply Qc_is_canon]. Qed.

Ltac qc2q :=
  repeat match goal with
         | H : @eq Qc _ _ |- _ => apply Qc_eq_Q in H
         end;
  try (apply Qc_eq_Q);
  unfold Qcle, Qclt, Qcminus, Qcdiv, Qcinv, Qcplus, Qcmult, Qcopp in *;
  repeat (rewrite_strat (outermost this_Q2Qc));
  repeat match goal with
         | H : _ |- _ =>
             progress (repeat (rewrite_strat (outermost this_Q2Qc) in H))
         end.


Lemma Qcdiv_neg_pos (w s : Qc) : (w < 0)%Qc -> (0 < s)%Qc -> (w / s < 0)%Qc.
Proof.
  intros Hw Hs.
  assert (Hinv : (0 < / s)%Qc).
  { unfold Qclt, Qcinv; rewrite !this_Q2Qc.
    apply Qinv_lt_0_compat; exact Hs. }
  unfold Qcdiv; generalize dependent (/ s)%Qc; intros t Ht.
  qc2q; nra.
Qed.

(** C2, as amended. After a call of [solve], for every agent with at
    least one column, [get_decision_distribution] holds at that agent's
    position a vector with one entry per column of the agent, computed
    from the raw vector of the values the solver left in the agent's
    variables, with 0 for an unset value: uniform when the raw vector sums
    to zero, the raw vector divided by its sum otherwise. It sums to 1 in
    both cases. It is nonnegative when no value of the raw vector is
    negative, hence whenever the solver keeps its contract; a negative
    value under a positive sum comes back as a negative weight. The
    vector is the one [solve] returns. *)
Theorem decision_distribution_valid (self : MasterProblem) (a : nat)
  (agent : Agent.t) :
  nth_error (agents self) a = Some agent ->
  Agent.get_columns agent <> [] ->
  let solved := fst (solve self) in
  let n := length (Agent.get_columns agent) in
  let raw := map (value_at (solved_values self) a) (range n) in
  exists dist,
    nth_error (get_decision_distribution solved) a = Some dist /\
    (forall r, snd (solve self) = inr r ->
               nth_error (snd (fst r)) a = Some dist) /\
    length dist = n /\
    (np_sum raw = 0%Qc -> dist = repeat (1 / Qc_of_nat n)%Qc n) /\
    (np_sum raw <> 0%Qc -> dist = map (fun w => (w / np_sum raw)%Qc) raw) /\
    np_sum dist = 1%Qc /\
    (Forall (fun w => (0 <= w)%Qc) raw -> Forall (fun w => (0 <= w)%Qc) dist) /\
    (forall c w, nth_error raw c = Some w -> (w < 0)%Qc ->
                 (0 < np_sum raw)%Qc ->
                 exists d, nth_error dist c = Some d /\ (d < 0)%Qc) /\
    (forall eps,
        (forall problem,
            snd (formulate self) = inr problem ->
            solver_contract eps problem (cvx_solve problem)) ->
        Forall (fun w => (0 <= w)%Qc) dist).
Proof.
  intros Ha Hcols; cbv zeta.
  set (solved := fst (solve self)).
  pose proof (solve_decision_vars self) as Hdv; fold solved in Hdv.
  pose proof (nth_error_vars_of (solved_values self) _ a agent Ha) as Hrow.
  rewrite <- Hdv in Hrow.
  set (a_vars := map _ _) in Hrow.
  assert (Hlen : length a_vars = length (Agent.get_columns agent))
    by (unfold a_vars, range; rewrite length_map, length_seq; reflexivity).
  assert (Hne : a_vars <> []).
  { intros E; rewrite E in Hlen; simpl in Hlen.
    apply Hcols, length_zero_iff_nil; symmetry; exact Hlen. }
  assert (Hdist : nth_error (get_decision_distribution solved) a =
                  Some (distribution a_vars))
    by (unfold get_decision_distribution; rewrite nth_error_map, Hrow;
        reflexivity).
  assert (Hraw : map value_or_zero a_vars =
                 map (value_at (solved_values self) a)
                     (range (length (Agent.get_columns agent))))
    by (unfold a_vars; rewrite map_map; apply map_ext; intros c; reflexivity).
  exists (distribution a_vars).
  split; [exact Hdist |].
  split.
  { intros r Hr; rewrite (solve_distribution self r Hr); exact Hdist. }
  destruct (distribution_spec a_vars Hne) as (H1 & H2 & H3 & H4 & H5).
  rewrite Hraw in H2, H3, H5; rewrite Hlen in H1, H2.
  split; [exact H1 | split; [exact H2 | split; [exact H3 |]]].
  split; [exact H4 | split; [exact H5 |]].
  split.
  - intros c w Hw Hneg Hsum.
    rewrite H3 by (apply not_eq_sym, Qclt_not_eq; exact Hsum).
    exists (w / np_sum (map (value_at (solved_values self) a)
                            (range (length (Agent.get_columns agent)))))%Qc.
    split; [rewrite nth_error_map, Hw; reflexivity |].
    apply Qcdiv_neg_pos; assumption.
  - intros eps Hcontract; apply H5, Forall_forall; intros w Hw.
    apply in_map_iff in Hw as (c & <- & _).
    apply (solved_values_nonneg self eps); exact Hcontract.
Qed.

(** ** Dual prices *)

Lemma weighted_expr_of_not_number (k : Column -> Qc) (a : nat)
  (cols : list Column) (start : expr) :
  cols <> [] \/ is_number start = false ->
  is_number (weighted_expr_of k a cols start) = false.
Proof.
  unfold weighted_expr_of, enumerate; generalize 0 as i.
  revert start; induction cols as [| x cols IH]; intros start i H; simpl.
  - destruct H as [H | H]; [contradiction | exact H].
  - apply IH; right; reflexivity.
Qed.

Lemma total_claims_expr_not_number (ags : list Agent.t) (t : nat) :
  (exists agent, In agent ags /\ Agent.get_columns agent <> []) ->
  is_number (total_claims_expr ags t) = false.
Proof.
  intros H; unfold total_claims_expr, enumerate; generalize 0 as i.
  assert (Hgen : forall start,
             (exists agent, In agent ags /\ Agent.get_columns agent <> []) \/
             is_number start = false ->
             forall i,
               is_number
                 (fold_left
                    (fun acc p =>
                       weighted_expr_of (claim_of t) (fst p)
                                        (Agent.get_columns (snd p)) acc)
                    (enumerate_from i ags) start) = false).
  { clear H; induction ags as [| x ags IH]; intros start H i; simpl.
    - destruct H as [(agent & [] & _) | H]; exact H.
    - apply IH.
      destruct (Agent.get_columns x) as [| c cols] eqn:Ec.
      + destruct H as [(agent & [Hin | Hin] & Hne) | H].
        * subst agent; contradiction.
        * left; exists agent; split; assumption.
        * right; exact H.
      + right; apply weighted_expr_of_not_number; left; simpl; discriminate. }
  intros i; apply Hgen; left; exact H.
Qed.

Lemma py_le_constraint (id : nat) (e : expr) (cap : Qc) :
  is_number e = false -> py_le id e cap = Constr id e RelLe cap None.
Proof. destruct e; simpl; intros H; [discriminate | reflexivity ..]. Qed.

(** Whatever the outcome of [solve] on a well-formed instance, it leaves
    one capacity constraint per period, in period order. *)
Lemma solve_resource_constraints (self : MasterProblem) :
  well_formed self -> has_column self ->
  resource_constraints (fst (solve self)) =
  map (fun t => Constr (num_agents self + t)
                       (total_claims_expr (agents self) t) RelLe
                       (resource_capacity self)
                       (solved_duals self (num_agents self + t)))
      (range (horizon self)).
Proof.
  intros Hwf Hcol; unfold solve, solved_duals.
  rewrite (formulate_constraints_ok self Hwf).
  assert (Hrc : resource_constraints (formulated self) =
                map (fun t => Constr (num_agents self + t)
                                     (total_claims_expr (agents self) t) RelLe
                                     (resource_capacity self) None)
                    (range (horizon self))).
  { simpl; apply map_ext; intros t; unfold resource_constraint_of.
    apply py_le_constraint, total_claims_expr_not_number; exact Hcol. }
  destruct (total_expected_reward (formulated self)) as [e | total].
  - exact Hrc.
  - generalize {| objective := total;
                  constraints := constraints (problem_of self) |}.
    intros problem; cbn [fst snd store_solution resource_constraints].
    rewrite Hrc, map_map; reflexivity.
Qed.

(** C5, as amended. After a call of [solve] on a well-formed instance in
    which some agent offers a column, [get_dual_prices] returns exactly
    [horizon] numbers; the entry of period [t] belongs to the capacity constraint of
    period [t], which is the constraint at position [num_agents + t] of the
    problem handed to the solver, and equals the dual the solver left in
    that constraint, or 0 when no dual is available. *)
Theorem dual_prices_per_period (self : MasterProblem) :
  well_formed self ->
  has_column self ->
  let solved := fst (solve self) in
  exists prices,
    get_dual_prices solved = inr prices /\
    length prices = horizon self /\
    forall t, t < horizon self ->
      let id := num_agents self + t in
      let d := solved_duals self id in
      nth_error (resource_constraints solved) t =
        Some (Constr id (total_claims_expr (agents self) t) RelLe
                     (resource_capacity self) d) /\
      (forall problem,
          snd (formulate self) = inr problem ->
          nth_error (constraints problem) id =
            Some (Constr id (total_claims_expr (agents self) t) RelLe
                         (resource_capacity self) None) /\
          d = dual (cvx_solve problem) id) /\
      nth_error prices t = Some (match d with Some x => x | None => 0%Qc end).
Proof.
  intros Hwf Hcol; cbv zeta.
  pose proof (solve_resource_constraints self Hwf Hcol) as Hrc.
  set (price := fun t => match solved_duals self (num_agents self + t) with
                         | Some x => x
                         | None => 0%Qc
                         end).
  exists (map price (range (horizon self))).
  split; [| split].
  - unfold get_dual_prices; rewrite Hrc, mapM_map.
    apply mapM_ok; intros t _; unfold price; simpl.
    destruct (solved_duals self (num_agents self + t)); reflexivity.
  - unfold range; rewrite length_map, length_seq; reflexivity.
  - intros t Ht; split; [| split].
    + rewrite Hrc, nth_error_map, (nth_error_range _ _ Ht); reflexivity.
    + intros problem Hp; unfold solved_duals; rewrite Hp.
      split; [| reflexivity].
      rewrite (formulate_constraints_ok self Hwf) in Hp; simpl in Hp.
      destruct (total_expected_reward (formulated self)) as [e | total];
        [discriminate |].
      inversion Hp; subst problem; clear Hp.
      cbn [constraints problem_of].
      rewrite nth_error_app2;
        rewrite length_map; unfold enumerate;
        rewrite length_enumerate_from, <- (proj1 Hwf); [| lia].
      replace (num_agents self + t - num_agents self) with t by lia.
      rewrite nth_error_map, (nth_error_range _ _ Ht); simpl.
      f_equal; unfold resource_constraint_of.
      apply py_le_constraint, total_claims_expr_not_number; exact Hcol.
    + rewrite nth_error_map, (nth_error_range _ _ Ht); reflexivity.
Qed.

(** ** The numeric passes *)

Lemma fold_left_plus_map {A : Type} (f : A -> Qc) (l : list A) (a : Qc) :
  fold_left (fun acc x => (acc + f x)%Qc) l a = (a + np_sum (map f l))%Qc.
Proof.
  revert a; induction l as [| x l IH]; intros a; simpl.
  - rewrite np_sum_nil; ring.
  - rewrite IH, np_sum_cons; ring.
Qed.

Lemma claim_at_inv (t : nat) (column : Column) (k : Qc) :
  claim_at t column = inr k -> k = claim_of t column.
Proof.
  unfold claim_at, claim_of; intros H; apply index_inr in H.
  symmetry; apply nth_error_nth; exact H.
Qed.

Lemma cumulative_claim_inv (column : Column) (k : Qc) :
  cumulative_claim column = inr k -> k = cumulative_claim_of column.
Proof. unfold cumulative_claim, ret; intros H; inversion H; reflexivity. Qed.

(** A numeric pass that succeeds computes the expected claim. *)
Lemma weighted_value_inv (self : MasterProblem) (val : nat -> nat -> option Qc)
  (coef : Column -> result Qc) (k : Column -> Qc) (p : nat * Agent.t) (r : Qc) :
  decision_vars self = vars_of val (agents self) ->
  In p (enumerate (agents self)) ->
  (forall column kk, coef column = inr kk -> kk = k column) ->
  weighted_value self coef (fst p) (snd p) 0%Qc = inr r ->
  r = expected_claim (value_at val) k p.
Proof.
  intros Hdv Hp Hk H; unfold weighted_value in H.
  apply (foldM_inv _ (fun acc q =>
                        (acc + value_at val (fst p) (fst q) * k (snd q))%Qc))
    in H.
  - rewrite H, fold_left_plus_map; unfold expected_claim; ring.
  - clear H; intros acc q y Hq Hy.
    rewrite (decision_var_vars_of self val (fst p) (fst q) (snd p) Hdv)
      in Hy; [| apply in_enumerate; exact Hp | apply in_enumerate_lt; exact Hq].
    simpl in Hy.
    destruct (coef (snd q)) as [e | kk] eqn:Ek; simpl in Hy; [discriminate |].
    rewrite <- (Hk _ _ Ek); unfold value_at.
    destruct (val (fst p) (fst q)); inversion Hy; reflexivity.
Qed.

Lemma numeric_claims_inv (self : MasterProblem) (val : nat -> nat -> option Qc)
  (coef : Column -> result Qc) (k : Column -> Qc) (l : list Qc) :
  num_agents self = length (agents self) ->
  decision_vars self = vars_of val (agents self) ->
  (forall column kk, coef column = inr kk -> kk = k column) ->
  numeric_claims self coef = inr l ->
  l = expected_claims_of self val k.
Proof.
  intros Hn Hdv Hk H; unfold numeric_claims in H.
  rewrite (mapM_agents self
             (fun a agent => weighted_value self coef a agent 0%Qc) Hn) in H.
  apply (mapM_inv _ (expected_claim (value_at val) k)) in H; [exact H |].
  intros p y Hp Hy; apply (weighted_value_inv self val coef k p y Hdv Hp Hk Hy).
Qed.


(** What a successful [solve] leaves behind. *)
Lemma solve_inr (self solved : MasterProblem)
  (r : xvalue * list (list Qc) * Qc) :
  solve self = (solved, inr r) ->
  same_config self solved /\
  decision_vars solved = vars_of (solved_values self) (agents self) /\
  report solved = inr r /\
  exists problem,
    snd (formulate self) = inr problem /\
    lp solved = Some {| lp_problem := problem;
                        lp_status := status (cvx_solve problem);
                        lp_value := opt_value (cvx_solve problem) |}.
Proof.
  intros H.
  pose proof (solve_config self) as Hc.
  pose proof (solve_decision_vars self) as Hd.
  rewrite H in Hc, Hd; simpl in Hc, Hd.
  split; [exact Hc | split; [exact Hd |]].
  unfold solve in H.
  destruct (formulate self) as (s1 & [e | p]); inversion H; subst.
  split; [reflexivity |].
  exists p; split; reflexivity.
Qed.

(** ** Fairness gradients *)





(** ** The objective *)

Lemma eval_fold_left {A : Type} (rho : nat -> nat -> Qc)
  (F : expr -> A -> expr) (h : A -> Qc) (l : list A) (start : expr) :
  (forall acc x, eval rho (F acc x) = (eval rho acc + h x)%Qc) ->
  eval rho (fold_left F l start) = (eval rho start + np_sum (map h l))%Qc.
Proof.
  intros HF; revert start; induction l as [| x l IH]; intros start; simpl.
  - rewrite np_sum_nil; ring.
  - rewrite IH, HF, np_sum_cons; ring.
Qed.

Lemma penalty_calls_fold_left {A : Type} (F : expr -> A -> expr) (n : nat)
  (l : list A) (start : expr) :
  (forall acc x, penalty_calls (F acc x) = penalty_calls acc + n) ->
  penalty_calls (fold_left F l start) = penalty_calls start + length l * n.
Proof.
  intros HF; revert start; induction l as [| x l IH]; intros start; simpl.
  - lia.
  - rewrite IH, HF; lia.
Qed.

Lemma np_sum_map_scale {A : Type} (c : Qc) (f : A -> Qc) (l : list A) :
  np_sum (map (fun x => (c * f x)%Qc) l) = (c * np_sum (map f l))%Qc.
Proof.
  induction l as [| x l IH]; simpl.
  - rewrite np_sum_nil; ring.
  - rewrite !np_sum_cons, IH; ring.
Qed.

Lemma np_sum_map_opp {A : Type} (f : A -> Qc) (l : list A) :
  np_sum (map (fun x => (- f x)%Qc) l) = (- np_sum (map f l))%Qc.
Proof.
  induction l as [| x l IH]; simpl.
  - rewrite np_sum_nil; ring.
  - rewrite !np_sum_cons, IH; ring.
Qed.

Lemma eval_expected_claim_expr (rho : nat -> nat -> Qc) (k : Column -> Qc)
  (p : nat * Agent.t) :
  eval rho (expected_claim_expr k p) = expected_claim rho k p.
Proof.
  unfold expected_claim_expr, weighted_expr_of, expected_claim.
  rewrite (eval_fold_left rho _
             (fun q => (rho (fst p) (fst q) * k (snd q))%Qc)).
  - simpl; ring.
  - intros acc q; reflexivity.
Qed.

Lemma eval_penalty_term (self : MasterProblem) (rho : nat -> nat -> Qc)
  (k : Column -> Qc) :
  eval rho (penalty_term self k) =
  (langrangian_weight self *
   variance_penalty_value
     (map (expected_claim rho k) (enumerate (agents self))))%Qc.
Proof.
  unfold penalty_term, penalty_args; simpl.
  rewrite map_map; f_equal; f_equal.
  apply map_ext; intros p; apply eval_expected_claim_expr.
Qed.

Lemma eval_penalized_of (self : MasterProblem) (rho : nat -> nat -> Qc) :
  fairness_scope self = "timestep" \/ fairness_scope self = "cumulative" \/
  Qc_ltb 0%Qc (langrangian_weight self) = false ->
  eval rho (penalized_of self) =
  (- (if Qc_ltb 0%Qc (langrangian_weight self)
      then langrangian_weight self * spec_fairness_penalty self rho
      else 0))%Qc.
Proof.
  intros Hsc; unfold penalized_of, spec_fairness_penalty.
  destruct (Qc_ltb 0%Qc (langrangian_weight self)); [| simpl; ring].
  destruct (String.eqb (fairness_scope self) "timestep") eqn:Ets.
  - rewrite (eval_fold_left rho _
               (fun t => (- (langrangian_weight self *
                             variance_penalty_value
                               (map (expected_claim rho (claim_of t))
                                    (enumerate (agents self)))))%Qc)).
    + rewrite np_sum_map_opp, np_sum_map_scale; simpl; ring.
    + intros acc t; cbn [eval]; rewrite eval_penalty_term.
      unfold Qcminus; reflexivity.
  - cbn [eval]; rewrite eval_penalty_term; simpl; ring.
Qed.

Lemma eval_rewards_of (self : MasterProblem) (rho : nat -> nat -> Qc)
  (start : expr) :
  eval rho (rewards_of (agents self) start) =
  (eval rho start + spec_reward self rho)%Qc.
Proof.
  unfold rewards_of, spec_reward.
  apply eval_fold_left; intros acc p.
  apply eval_fold_left; intros acc' q; reflexivity.
Qed.

Lemma penalty_calls_rewards_of (ags : list Agent.t) (start : expr) :
  penalty_calls (rewards_of ags start) = penalty_calls start.
Proof.
  unfold rewards_of.
  rewrite (penalty_calls_fold_left _ 0); [lia |].
  intros acc p.
  rewrite (penalty_calls_fold_left _ 0); [lia |].
  intros acc' q; simpl; lia.
Qed.

Lemma penalty_calls_penalized_of (self : MasterProblem) :
  penalty_calls (penalized_of self) =
  if Qc_ltb 0%Qc (langrangian_weight self)
  then if String.eqb (fairness_scope self) "timestep"
       then horizon self else 1
  else 0.
Proof.
  unfold penalized_of.
  destruct (Qc_ltb 0%Qc (langrangian_weight self)); [| reflexivity].
  destruct (String.eqb (fairness_scope self) "timestep"); [| reflexivity].
  rewrite (penalty_calls_fold_left _ 1).
  - unfold range; rewrite length_seq; simpl; lia.
  - intros acc t; simpl; lia.
Qed.

Lemma Qc_ltb_iff (x y : Qc) : Qc_ltb x y = true <-> (x < y)%Qc.
Proof.
  unfold Qc_ltb; rewrite Qclt_alt.
  destruct (x ?= y)%Qc; split; intros H; try reflexivity; discriminate.
Qed.

Lemma fairness_penalty_inv (self : MasterProblem) (values : list expr)
  (penalty : expr) :
  fairness_penalty self values = inr penalty ->
  penalty = EVariancePenalty values.
Proof.
  unfold fairness_penalty.
  destruct (String.eqb (fairness_type self) "variance"); intros H;
    inversion H; reflexivity.
Qed.

(** An objective assembly that succeeds builds [penalized_of], under a
    known scope whenever the weight is positive. *)
Lemma subtract_penalty_inv (self : MasterProblem)
  (val : nat -> nat -> option Qc) (e : expr) :
  well_formed self ->
  decision_vars self = vars_of val (agents self) ->
  subtract_penalty self (ENum 0%Qc) = inr e ->
  e = penalized_of self /\
  (fairness_scope self = "timestep" \/ fairness_scope self = "cumulative" \/
   Qc_ltb 0%Qc (langrangian_weight self) = false).
Proof.
  intros Hwf Hdv; unfold subtract_penalty, penalized_of.
  destruct (Qc_ltb 0%Qc (langrangian_weight self));
    [| intros H; inversion H; auto].
  destruct (String.eqb (fairness_scope self) "timestep") eqn:Ets.
  - intros H; split; [| left; apply String.eqb_eq; exact Ets].
    apply (foldM_inv _ (fun acc t => ESub acc (penalty_term self (claim_of t))))
      in H; [exact H |].
    intros acc t y Ht Hy; apply in_range in Ht.
    rewrite (expected_claims_ok self val (claim_at t) (claim_of t)) in Hy;
      [| apply Hwf | exact Hdv |].
    + simpl in Hy; apply bind_inr in Hy as (penalty & Hp & Hy).
      apply fairness_penalty_inv in Hp; subst penalty.
      inversion Hy; reflexivity.
    + intros agent column Hag Hc.
      apply (well_formed_claim_at self agent t Hwf Hag Ht column Hc).
  - destruct (String.eqb (fairness_scope self) "cumulative") eqn:Ecu;
      [| discriminate].
    intros H; split; [| right; left; apply String.eqb_eq; exact Ecu].
    rewrite (expected_claims_ok self val cumulative_claim cumulative_claim_of)
      in H; [| apply Hwf | exact Hdv | reflexivity].
    simpl in H; apply bind_inr in H as (penalty & Hp & H).
    apply fairness_penalty_inv in Hp; subst penalty.
    inversion H; reflexivity.
Qed.

(** On a well-formed instance, a formulation that succeeds builds
    [problem_of]. *)
Lemma formulate_inv (self : MasterProblem) (problem : Problem) :
  well_formed self ->
  snd (formulate self) = inr problem ->
  problem = problem_of self /\
  formulate self = (formulated self, inr (problem_of self)) /\
  (fairness_scope self = "timestep" \/ fairness_scope self = "cumulative" \/
   Qc_ltb 0%Qc (langrangian_weight self) = false).
Proof.
  intros Hwf H.
  rewrite (formulate_constraints_ok self Hwf) in H |- *; simpl in H.
  unfold total_expected_reward in *.
  destruct (subtract_penalty (formulated self) (ENum 0%Qc)) as [e | pen] eqn:Es;
    [discriminate |].
  destruct (subtract_penalty_inv (formulated self) (fun _ _ => None) pen
                                 Hwf eq_refl Es) as (-> & Hsc).
  simpl in H |- *.
  rewrite (add_rewards_ok (formulated self) (fun _ _ => None) _ Hwf eq_refl)
    in H |- *.
  inversion H; auto.
Qed.

(** C1. On a well-formed instance, every problem that [solve] hands to the
    solver maximizes an objective that is, at every assignment of the
    variables, the sum over all (agent, column) pairs of the variable times
    [sum(reward) - sum(fixed_cost_vector * claims)], minus
    [langrangian_weight] times the fairness penalty when
    [langrangian_weight > 0] and minus nothing otherwise. The objective
    holds a call of [variance_penalty] exactly when
    [langrangian_weight > 0]: one per period under the timestep scope, one
    under the cumulative scope, none when the weight is not positive. Such
    a problem is built whenever a positive weight comes with the variance
    type and a known scope. *)
Theorem objective_handed_to_solver (self : MasterProblem) :
  well_formed self ->
  (penalty_configured self ->
   exists problem, snd (formulate self) = inr problem) /\
  (forall problem,
      snd (formulate self) = inr problem ->
      lp (fst (solve self)) =
        Some {| lp_problem := problem;
                lp_status := status (cvx_solve problem);
                lp_value := opt_value (cvx_solve problem) |} /\
      (forall rho, eval rho (objective problem) = spec_objective self rho) /\
      penalty_calls (objective problem) =
        (if Qc_ltb 0%Qc (langrangian_weight self)
         then if String.eqb (fairness_scope self) "timestep"
              then horizon self else 1
         else 0) /\
      (0 < horizon self ->
       (0 < penalty_calls (objective problem) <->
        (0 < langrangian_weight self)%Qc))).
Proof.
  intros Hwf; split.
  { intros Hcfg; exists (problem_of self).
    rewrite (formulate_ok self Hwf Hcfg); reflexivity. }
  intros problem Hp.
  destruct (formulate_inv self problem Hwf Hp) as (-> & Hf & Hsc).
  assert (Hcalls : penalty_calls (objective (problem_of self)) =
                   if Qc_ltb 0%Qc (langrangian_weight self)
                   then if String.eqb (fairness_scope self) "timestep"
                        then horizon self else 1
                   else 0).
  { cbn [objective problem_of].
    rewrite penalty_calls_rewards_of; apply penalty_calls_penalized_of. }
  split; [unfold solve; rewrite Hf; reflexivity |].
  split; [| split; [exact Hcalls |]].
  - intros rho; cbn [objective problem_of].
    rewrite eval_rewards_of, (eval_penalized_of self rho Hsc).
    unfold spec_objective; ring.
  - intros Hh; rewrite Hcalls, <- Qc_ltb_iff.
    destruct (Qc_ltb 0%Qc (langrangian_weight self)).
    + destruct (String.eqb (fairness_scope self) "timestep");
        split; intros _; [reflexivity | exact Hh | reflexivity | lia].
    + split; intros H; [lia | discriminate].
Qed.

(** ** Two agents with one column each *)

Lemma np_sum_single (x : Qc) : np_sum [x] = x.
Proof. rewrite np_sum_cons, np_sum_nil; ring. Qed.

Lemma distribution_single (v : CvVariable) (x : Qc) :
  value v = Some x -> x <> 0%Qc -> distribution [v] = [1%Qc].
Proof.
  intros Hv Hx; unfold distribution, value_or_zero; simpl map.
  rewrite Hv, np_sum_single.
  destruct (Qc_eq_bool x 0%Qc) eqn:E.
  - apply Qc_eq_bool_iff in E; contradiction.
  - simpl; f_equal; field; exact Hx.
Qed.

Lemma net_value_of_unit (claim claim' : Qc) :
  net_value_of (unit_agent claim) (unit_column claim') = 1%Qc.
Proof.
  unfold net_value_of; simpl.
  rewrite !np_sum_single; ring.
Qed.

Lemma Q2Qc_2 : Q2Qc 2 = (1 + 1)%Qc.
Proof. apply Qc_is_canon; reflexivity. Qed.

Section TwoAgents.

Variables claim0 claim1 capacity weight : Qc.

Let self := two_agents claim0 claim1 capacity weight "timestep".

(** The feasible points of the problem: both variables are 1, so the two
    claims together must fit the capacity. *)
Lemma two_agents_feasible (rho : nat -> nat -> Qc) :
  feasible (problem_of self) rho ->
  rho 0 0 = 1%Qc /\ rho 1 0 = 1%Qc /\ (claim0 + claim1 <= capacity)%Qc.
Proof.
  intros (_ & Hfeas); cbn in Hfeas.
  inversion Hfeas as [| c0 l0 H0 Hfeas1]; subst.
  inversion Hfeas1 as [| c1 l1 H1 Hfeas2]; subst.
  inversion Hfeas2 as [| c2 l2 H2 _]; subst.
  cbn in H0, H1, H2; rewrite Qcplus_0_l in H0, H1.
  split; [exact H0 | split; [exact H1 |]].
  rewrite H0, H1 in H2.
  replace (claim0 + claim1)%Qc with (0 + 1 * claim0 + 1 * claim1)%Qc by ring.
  exact H2.
Qed.

Lemma two_agents_feasible_ones :
  (claim0 + claim1 <= capacity)%Qc ->
  feasible (problem_of self) (fun _ _ => 1%Qc).
Proof.
  intros Hcap; split.
  - intros a c; unfold Qcle; simpl; discriminate.
  - cbn; constructor; [cbn; ring |].
    constructor; [cbn; ring |].
    constructor; [| constructor].
    cbn.
    replace (0 + 1 * claim0 + 1 * claim1)%Qc with (claim0 + claim1)%Qc
      by ring.
    exact Hcap.
Qed.

Lemma two_agents_objective (rho : nat -> nat -> Qc) :
  rho 0 0 = 1%Qc -> rho 1 0 = 1%Qc ->
  eval rho (objective (problem_of self)) =
  (Q2Qc 2 -
   (if Qc_ltb 0%Qc weight
    then weight * variance_penalty_value [claim0; claim1]
    else 0))%Qc.
Proof.
  intros H0 H1; cbn -[Qcplus Qcmult Qcminus Qcdiv Qc_ltb].
  rewrite !net_value_of_unit, H0, H1, Q2Qc_2.
  unfold penalized_of; cbn -[Qcplus Qcmult Qcminus Qcdiv Qc_ltb].
  destruct (Qc_ltb 0%Qc weight); cbn -[Qcplus Qcmult Qcminus Qcdiv].
  - rewrite H0, H1.
    replace (0 + 1 * claim0)%Qc with claim0 by ring.
    replace (0 + 1 * claim1)%Qc with claim1 by ring.
    ring.
  - ring.
Qed.

(** What [solve] reports once the solver has set both variables to 1. *)
Lemma two_agents_report (problem : Problem) (sol : Solution) :
  (forall values, length (variance_penalty_gradient values) = length values) ->
  primal sol 0 0 = Some 1%Qc -> primal sol 1 0 = Some 1%Qc ->
  report (store_solution (formulated self) problem sol) =
  inr (opt_value sol, [[1%Qc]; [1%Qc]],
       (weight * variance_penalty_numpy [claim0; claim1])%Qc).
Proof.
  intros Hlen H0 H1.
  unfold report, compute_fairness_gradients, compute_realized_fairness_penalty.
  cbn -[Qcplus Qcmult Qcminus Qcdiv].
  unfold decision_var, weighted_value; cbn -[Qcplus Qcmult Qcminus Qcdiv].
  rewrite H0, H1.
  replace (0 + 1 * claim0)%Qc with claim0 by ring.
  replace (0 + 1 * claim1)%Qc with claim1 by ring.
  cbn -[Qcplus Qcmult Qcminus Qcdiv].
  pose proof (Hlen [claim0; claim1]) as Hg.
  destruct (variance_penalty_gradient [claim0; claim1])
    as [| g0 [| g1 [| g2 gs]]]; try discriminate Hg.
  cbn -[Qcplus Qcmult Qcminus Qcdiv].
  unfold ret; f_equal; f_equal; [f_equal |].
  - rewrite !(distribution_single _ 1%Qc); try reflexivity; try assumption;
      apply Q_apart_0_1.
  - ring.
Qed.



Lemma two_agents_objective_values (rho : nat -> nat -> Qc) :
  eval rho (objective (problem_of self)) =
  (rho 0%nat 0%nat + rho 1%nat 0%nat -
   (if Qc_ltb 0%Qc weight
    then weight * variance_penalty_value [rho 0%nat 0%nat * claim0; rho 1%nat 0%nat * claim1]
    else 0))%Qc.
Proof.
  cbn -[Qcplus Qcmult Qcminus Qcdiv Qc_ltb].
  rewrite !net_value_of_unit.
  unfold penalized_of; cbn -[Qcplus Qcmult Qcminus Qcdiv Qc_ltb].
  destruct (Qc_ltb 0%Qc weight); cbn -[Qcplus Qcmult Qcminus Qcdiv].
  - replace (0 + rho 0%nat 0%nat * claim0)%Qc with (rho 0%nat 0%nat * claim0)%Qc by ring.
    replace (0 + rho 1%nat 0%nat * claim1)%Qc with (rho 1%nat 0%nat * claim1)%Qc by ring.
    ring.
  - ring.
Qed.


(** An outcome near both ones keeps the contract up to [eps] when it
    reports the objective at its values and stays within [eps] of the
    optimum. *)
Lemma near_ones_contract (eps x0 x1 : Qc) :
  (0 <= x0)%Qc -> (0 <= x1)%Qc ->
  (1 - eps <= x0)%Qc -> (x0 <= 1 + eps)%Qc ->
  (1 - eps <= x1)%Qc -> (x1 <= 1 + eps)%Qc ->
  (x0 * claim0 + x1 * claim1 <= capacity + eps)%Qc ->
  (Q2Qc 2 -
   (if Qc_ltb 0%Qc weight
    then weight * variance_penalty_value [claim0; claim1]
    else 0)
   <= x0 + x1 -
      (if Qc_ltb 0%Qc weight
       then weight * variance_penalty_value [x0 * claim0; x1 * claim1]
       else 0) + eps)%Qc ->
  solver_contract eps (problem_of self)
    (near_ones x0 x1
       (x0 + x1 -
        (if Qc_ltb 0%Qc weight
         then weight * variance_penalty_value [x0 * claim0; x1 * claim1]
         else 0))%Qc).
Proof.
  intros Hx0 Hx1 H0 H0' H1 H1' Hcap Hopt.
  unfold solver_contract; simpl status.
  exists (fun a _ => if Nat.eqb a 0 then x0 else x1).
  split; [split |].
  - intros a c; destruct (Nat.eqb a 0); assumption.
  - cbn; constructor; [cbn; rewrite Qcplus_0_l; split; assumption |].
    constructor; [cbn; rewrite Qcplus_0_l; split; assumption |].
    constructor; [| constructor].
    cbn.
    replace (0 + x0 * claim0 + x1 * claim1)%Qc
      with (x0 * claim0 + x1 * claim1)%Qc by ring.
    exact Hcap.
  - split; [reflexivity |].
    split; [simpl opt_value; f_equal; symmetry;
            apply two_agents_objective_values |].
    intros rho Hfeas.
    destruct (two_agents_feasible rho Hfeas) as (E0 & E1 & _).
    rewrite (two_agents_objective rho E0 E1), two_agents_objective_values.
    exact Hopt.
Qed.

End TwoAgents.

Lemma two_agents_configured (claim0 claim1 capacity weight : Qc) :
  penalty_configured (two_agents claim0 claim1 capacity weight "timestep").
Proof. intros _; split; [reflexivity | left; reflexivity]. Qed.

Lemma Qcle_plus_nonneg (x eps : Qc) : (0 <= eps)%Qc -> (x <= x + eps)%Qc.
Proof. intros H; qc2q; lra. Qed.

(** A point that meets the constraints meets them up to every tolerance. *)
Lemma feasible_feasible_within (eps : Qc) (p : Problem)
  (rho : nat -> nat -> Qc) :
  (0 <= eps)%Qc -> feasible p rho -> feasible_within eps p rho.
Proof.
  intros Heps (Hnn & Hall); split; [exact Hnn |].
  apply Forall_forall; intros c Hc.
  rewrite Forall_forall in Hall; specialize (Hall c Hc).
  destruct c as [b | id lhs [] rhs d]; simpl in *.
  - exact Hall.
  - rewrite Hall; split; qc2q; lra.
  - qc2q; lra.
Qed.


Lemma Qcle_1_1 : (1 + 0 <= 1)%Qc.
Proof. unfold Qcle; simpl; discriminate. Qed.

Lemma Qcle_2_2 : (1 + 1 <= Q2Qc 2)%Qc.
Proof. unfold Qcle; simpl; discriminate. Qed.



(** ** The scenarios of the specification *)



(** ** Solver failures *)

(** The numeric pass stops at the first variable without a value. *)
Lemma numeric_claims_unset (self : MasterProblem)
  (val : nat -> nat -> option Qc) (coef : Column -> result Qc)
  (first : Agent.t) (rest : list Agent.t) (column : Column)
  (columns : list Column) (k : Qc) :
  num_agents self = length (agents self) ->
  decision_vars self = vars_of val (agents self) ->
  agents self = first :: rest ->
  Agent.get_columns first = column :: columns ->
  coef column = inr k ->
  val 0 0 = None ->
  numeric_claims self coef = inl TypeError.
Proof.
  intros Hn Hdv Hags Hcols Hk Hval; unfold numeric_claims.
  rewrite Hn, Hags; simpl length; unfold range; simpl seq.
  apply mapM_first_error.
  rewrite <- Hags; unfold index; rewrite Hags; simpl.
  unfold weighted_value; rewrite Hcols; simpl.
  rewrite (decision_var_vars_of self val 0 0 first Hdv);
    [| rewrite Hags; reflexivity | rewrite Hcols; simpl; lia].
  simpl; rewrite Hk, Hval; reflexivity.
Qed.

(** C9 (the code departs from the claim). On a well-formed instance with
    a known scope whose first agent offers a column, when the solver
    leaves the variables unset, as it does on reporting an infeasible or
    unbounded problem or an error, [solve] does not return its triple: the
    gradient computation multiplies the unset value and [solve] raises
    [TypeError]. *)
Theorem unset_values_raise_TypeError (self : MasterProblem)
  (first : Agent.t) (rest : list Agent.t) :
  well_formed self ->
  penalty_configured self ->
  (fairness_scope self = "timestep" /\ 0 < horizon self) \/
  fairness_scope self = "cumulative" ->
  agents self = first :: rest ->
  Agent.get_columns first <> [] ->
  (forall problem,
      snd (formulate self) = inr problem ->
      primal (cvx_solve problem) 0 0 = None) ->
  snd (solve self) = inl TypeError /\
  compute_fairness_gradients (fst (solve self)) = inl TypeError.
Proof.
  intros Hwf Hcfg Hscope Hags Hcols Hunset.
  destruct (Agent.get_columns first) as [| column columns] eqn:Ecols;
    [contradiction |].
  assert (Hnone : primal (cvx_solve (problem_of self)) 0 0 = None).
  { apply Hunset; rewrite (formulate_ok self Hwf Hcfg); reflexivity. }
  rewrite (solve_ok self Hwf Hcfg); cbn [fst snd].
  set (solved := store_solution _ _ _).
  assert (Hdv : decision_vars solved =
                vars_of (primal (cvx_solve (problem_of self))) (agents solved)).
  { unfold solved; cbn [decision_vars store_solution formulated
                        set_resource_constraints set_decision_vars].
    rewrite create_decision_vars_vars_of; apply solved_vars_of. }
  assert (Hclaims : forall coef k,
             coef column = inr k -> numeric_claims solved coef = inl TypeError).
  { intros coef k Hk.
    apply (numeric_claims_unset solved
             (primal (cvx_solve (problem_of self)))
             coef first rest column columns k);
      [exact (proj1 Hwf) | exact Hdv | exact Hags | exact Ecols | exact Hk
       | exact Hnone]. }
  assert (Hgrad : compute_fairness_gradients solved = inl TypeError).
  { unfold compute_fairness_gradients.
    change (fairness_scope solved) with (fairness_scope self).
    change (horizon solved) with (horizon self).
    destruct Hscope as [(Hsc & Hh) | Hsc]; rewrite Hsc; simpl.
    - assert (Hl : 0 < length (claims column)).
      { destruct Hwf as (_ & Hwf'); rewrite Hags in Hwf'.
        inversion Hwf' as [| ? ? (_ & Hfirst) _]; subst.
        rewrite Ecols in Hfirst.
        inversion Hfirst as [| ? ? (Hl & _) _]; subst.
        rewrite Hl; exact Hh. }
      destruct (horizon self) as [| h]; [lia |].
      unfold range; simpl seq.
      apply bind_inl, mapM_first_error, bind_inl.
      apply (Hclaims _ (claim_of 0 column)), claim_at_ok; exact Hl.
    - apply bind_inl, (Hclaims _ (cumulative_claim_of column)); reflexivity. }
  split; [| exact Hgrad].
  unfold report; rewrite Hgrad; reflexivity.
Qed.

(** ** What the constraints say *)

Lemma Qc_leb_iff (x y : Qc) : Qc_leb x y = true <-> (x <= y)%Qc.
Proof.
  unfold Qc_leb; rewrite Qcle_alt.
  destruct (x ?= y)%Qc; split; intros H; try reflexivity; try discriminate.
  exfalso; apply H; reflexivity.
Qed.

Lemma holds_py_eq (rho : nat -> nat -> Qc) (id : nat) (e : expr) (q : Qc) :
  holds rho (py_eq id e q) <-> eval rho e = q.
Proof. destruct e; simpl; try reflexivity; apply Qc_eq_bool_iff. Qed.

Lemma holds_py_le (rho : nat -> nat -> Qc) (id : nat) (e : expr) (q : Qc) :
  holds rho (py_le id e q) <-> (eval rho e <= q)%Qc.
Proof. destruct e; simpl; try reflexivity; apply Qc_leb_iff. Qed.

Lemma eval_agent_constraint (rho : nat -> nat -> Qc) (p : nat * Agent.t) :
  holds rho (agent_constraint_of p) <-> weight_sum rho p = 1%Qc.
Proof.
  unfold agent_constraint_of, weight_sum, cv_sum; rewrite holds_py_eq.
  rewrite (eval_fold_left rho _ (fun v => rho (var_agent v) (var_col v)))
    by (intros acc v; reflexivity).
  rewrite map_map; simpl.
  rewrite Qcplus_0_l; reflexivity.
Qed.

Lemma eval_total_claims_expr (self : MasterProblem) (rho : nat -> nat -> Qc)
  (t : nat) :
  eval rho (total_claims_expr (agents self) t) = expected_total_claim self rho t.
Proof.
  unfold total_claims_expr, expected_total_claim.
  rewrite (eval_fold_left rho _ (expected_claim rho (claim_of t))).
  - simpl; ring.
  - intros acc p; unfold weighted_expr_of, expected_claim.
    apply eval_fold_left; intros acc' q; reflexivity.
Qed.

(** The feasible points of [problem_of] are the points that meet the
    constraints. *)
Lemma feasible_problem_of (self : MasterProblem) (rho : nat -> nat -> Qc) :
  feasible (problem_of self) rho <-> meets_constraints self rho.
Proof.
  unfold feasible, meets_constraints; cbn [constraints problem_of].
  rewrite Forall_app, !Forall_map, !Forall_forall.
  split; intros (Hnn & Hag & Hcap); (split; [exact Hnn | split]).
  - intros p Hp; apply eval_agent_constraint, Hag, Hp.
  - intros t Ht; rewrite <- eval_total_claims_expr.
    apply (holds_py_le rho (num_agents self + t)), Hcap, in_range, Ht.
  - intros p Hp; apply eval_agent_constraint, Hag, Hp.
  - intros t Ht; apply in_range in Ht; unfold resource_constraint_of.
    apply holds_py_le; rewrite eval_total_claims_expr; apply Hcap, Ht.
Qed.

Lemma holds_within_py_eq (eps : Qc) (rho : nat -> nat -> Qc) (id : nat)
  (e : expr) (q : Qc) :
  (0 <= eps)%Qc -> holds_within eps rho (py_eq id e q) ->
  (q - eps <= eval rho e)%Qc /\ (eval rho e <= q + eps)%Qc.
Proof.
  intros Heps; destruct e; simpl; try (intros H; exact H).
  intros H; apply Qc_eq_bool_iff in H; subst q; split; qc2q; lra.
Qed.

Lemma holds_within_py_le (eps : Qc) (rho : nat -> nat -> Qc) (id : nat)
  (e : expr) (q : Qc) :
  (0 <= eps)%Qc -> holds_within eps rho (py_le id e q) ->
  (eval rho e <= q + eps)%Qc.
Proof.
  intros Heps; destruct e; simpl; try (intros H; exact H).
  intros H; apply Qc_leb_iff in H; qc2q; lra.
Qed.

Lemma eval_agent_sum (rho : nat -> nat -> Qc) (p : nat * Agent.t) :
  eval rho
       (cv_sum (map (fun c => {| var_agent := fst p; var_col := c;
                                 nonneg := true; value := None |})
                    (range (length (Agent.get_columns (snd p)))))) =
  weight_sum rho p.
Proof.
  unfold weight_sum, cv_sum.
  rewrite (eval_fold_left rho _ (fun v => rho (var_agent v) (var_col v)))
    by (intros acc v; reflexivity).
  rewrite map_map; simpl.
  rewrite Qcplus_0_l; reflexivity.
Qed.

(** The points of [problem_of] that are feasible up to [eps] meet the
    constraints up to [eps]. *)
Lemma feasible_within_problem_of (eps : Qc) (self : MasterProblem)
  (rho : nat -> nat -> Qc) :
  (0 <= eps)%Qc ->
  feasible_within eps (problem_of self) rho ->
  meets_constraints_within eps self rho.
Proof.
  intros Heps (Hnn & Hall); cbn [constraints problem_of] in Hall.
  rewrite Forall_app, !Forall_map, !Forall_forall in Hall.
  destruct Hall as (Hag & Hcap).
  split; [exact Hnn | split].
  - intros p Hp; rewrite <- eval_agent_sum.
    apply (holds_within_py_eq eps rho (fst p) _ 1%Qc Heps), Hag, Hp.
  - intros t Ht; rewrite <- eval_total_claims_expr.
    apply (holds_within_py_le eps rho (num_agents self + t) _ _ Heps), Hcap.
    apply in_range, Ht.
Qed.

(** A weight [x / s] differs from [x] by at most [eps] when it lies between
    0 and 1 and [s] is within [eps] of 1. *)
Lemma normalised_entry_near (x s d eps : Qc) :
  d = (x / s)%Qc -> s <> 0%Qc ->
  (0 <= d)%Qc -> (d <= 1)%Qc ->
  (1 - eps <= s)%Qc -> (s <= 1 + eps)%Qc ->
  (x - eps <= d)%Qc /\ (d <= x + eps)%Qc.
Proof.
  intros Hd Hs H0 H1 Hlow Hhigh.
  assert (E : x = (d * s)%Qc) by (subst d; field; exact Hs).
  clear Hd Hs; subst x.
  split; qc2q; nra.
Qed.

(** X1. On a well-formed instance, an assignment of the variables
    satisfies the constraints that [solve] hands to the solver exactly when
    no variable is negative, the variables of every agent sum to 1, and in
    every period the expected claims of all agents together are at most
    [resource_capacity]. *)
Theorem constraints_define_mixtures_within_capacity (self : MasterProblem)
  (problem : Problem) (rho : nat -> nat -> Qc) :
  well_formed self ->
  snd (formulate self) = inr problem ->
  (feasible problem rho <-> meets_constraints self rho).
Proof.
  intros Hwf Hp.
  destruct (formulate_inv self problem Hwf Hp) as (-> & _).
  apply feasible_problem_of.
Qed.

(** X2. On a well-formed instance, when some agent offers no column the
    problem that [solve] hands to the solver has no feasible point: the sum
    over the agent's empty list of variables is the number 0, and the
    constraint [0 == 1] is false. *)
Theorem agent_without_columns_is_infeasible (self : MasterProblem)
  (problem : Problem) (agent : Agent.t) :
  well_formed self ->
  snd (formulate self) = inr problem ->
  In agent (agents self) ->
  Agent.get_columns agent = [] ->
  In (PyBool false) (constraints problem) /\
  forall rho, ~ feasible problem rho.
Proof.
  intros Hwf Hp Hin Hcols.
  destruct (formulate_inv self problem Hwf Hp) as (-> & _).
  apply In_nth_error in Hin as (a & Ha).
  assert (Hen : In (a, agent) (enumerate (agents self))).
  { apply (nth_error_In _ a); unfold enumerate.
    rewrite nth_error_enumerate_from, Ha; reflexivity. }
  split.
  - cbn [constraints problem_of]; apply in_or_app; left.
    apply in_map_iff; exists (a, agent); split; [| exact Hen].
    unfold agent_constraint_of; simpl; rewrite Hcols; reflexivity.
  - intros rho Hfeas; apply feasible_problem_of in Hfeas.
    destruct Hfeas as (_ & Hag & _).
    specialize (Hag _ Hen); unfold weight_sum in Hag; simpl in Hag.
    rewrite Hcols in Hag; simpl in Hag.
    apply Q_apart_0_1; symmetry; exact Hag.
Qed.

(** X3. On a well-formed instance, raising [resource_capacity] changes
    neither whether [solve] builds a problem nor its objective, and every
    assignment that satisfied the constraints still satisfies them. *)
Theorem more_capacity_keeps_feasible_points (self : MasterProblem)
  (capacity : Qc) :
  well_formed self ->
  (resource_capacity self <= capacity)%Qc ->
  (forall e, snd (formulate self) = inl e ->
             snd (formulate (set_resource_capacity self capacity)) = inl e) /\
  (forall problem,
      snd (formulate self) = inr problem ->
      exists problem',
        snd (formulate (set_resource_capacity self capacity)) = inr problem' /\
        objective problem' = objective problem /\
        forall rho, feasible problem rho -> feasible problem' rho).
Proof.
  intros Hwf Hcap.
  assert (Hwf' : well_formed (set_resource_capacity self capacity)) by exact Hwf.
  assert (Hsame : total_expected_reward
                    (formulated (set_resource_capacity self capacity)) =
                  total_expected_reward (formulated self)) by reflexivity.
  rewrite (formulate_constraints_ok _ Hwf), (formulate_constraints_ok _ Hwf').
  cbn [snd]; rewrite Hsame.
  destruct (total_expected_reward (formulated self)) as [e | total] eqn:Et.
  - split; [intros e' He; exact He | intros problem Hp; discriminate].
  - split; [intros e' He; discriminate |].
    intros problem Hp; eexists; split; [reflexivity |].
    inversion Hp; subst problem; clear Hp.
    split; [reflexivity |].
    assert (Hform : snd (formulate self) = inr (problem_of self)).
    { destruct (formulate_inv self {| objective := total;
                                      constraints := constraints (problem_of self) |}
                              Hwf) as (_ & Hf & _).
      - rewrite (formulate_constraints_ok _ Hwf); cbn [snd]; rewrite Et.
        reflexivity.
      - rewrite Hf; reflexivity. }
    intros rho (Hnn & Hcs); split; [exact Hnn |].
    cbn [constraints] in *.
    assert (Hfeas : feasible (problem_of self) rho) by (split; assumption).
    apply feasible_problem_of in Hfeas; destruct Hfeas as (_ & Hag & Hper).
    assert (Hfeas' : feasible (problem_of (set_resource_capacity self capacity))
                              rho).
    { apply feasible_problem_of; split; [exact Hnn | split; [exact Hag |]].
      intros t Ht; apply (Qcle_trans _ (resource_capacity self));
        [apply Hper, Ht | exact Hcap]. }
    exact (proj2 Hfeas').
Qed.

(** ** More on the decision distribution *)

Lemma length_distribution (a_vars : list CvVariable) :
  length (distribution a_vars) = length a_vars.
Proof.
  unfold distribution.
  destruct (Qc_eq_bool _ _); rewrite !length_map; reflexivity.
Qed.

Lemma map_snd_enumerate_from {A : Type} (i : nat) (l : list A) :
  map snd (enumerate_from i l) = l.
Proof.
  revert i; induction l as [| x l IH]; intros i; simpl;
    [| rewrite IH]; reflexivity.
Qed.

Lemma np_sum_ge_entry (l : list Qc) (x : Qc) :
  Forall (fun w => (0 <= w)%Qc) l -> In x l -> (x <= np_sum l)%Qc.
Proof.
  induction 1 as [| y l Hy Hl IH]; intros Hin; [contradiction |].
  rewrite np_sum_cons; destruct Hin as [-> | Hin].
  - replace x with (x + 0)%Qc at 1 by ring.
    apply Qcplus_le_compat; [apply Qcle_refl | apply np_sum_nonneg; exact Hl].
  - replace x with (0 + x)%Qc by ring.
    apply Qcplus_le_compat; [exact Hy | apply IH; exact Hin].
Qed.

Lemma distribution_bounds (a_vars : list CvVariable) :
  Forall (fun v => (0 <= value_or_zero v)%Qc) a_vars ->
  Forall (fun w => (0 <= w)%Qc /\ (w <= 1)%Qc) (distribution a_vars).
Proof.
  intros Hnn.
  destruct (list_eq_dec Qc_eq_dec (map value_or_zero a_vars) []) as [E | E].
  - apply map_eq_nil in E; subst a_vars.
    unfold distribution; simpl map.
    destruct (Qc_eq_bool (np_sum []) 0%Qc); constructor.
  - assert (Hne : a_vars <> []) by (intros ->; apply E; reflexivity).
    destruct (distribution_spec a_vars Hne) as (_ & _ & _ & Hsum & Hpos).
    assert (Hd : Forall (fun w => (0 <= w)%Qc) (distribution a_vars))
      by (apply Hpos, Forall_map; exact Hnn).
    apply Forall_forall; intros w Hw; split.
    + rewrite Forall_forall in Hd; apply Hd; exact Hw.
    + rewrite <- Hsum; apply np_sum_ge_entry; assumption.
Qed.

Lemma distribution_unset (a_vars : list CvVariable) :
  Forall (fun v => value v = None) a_vars ->
  distribution a_vars =
  repeat (1 / Qc_of_nat (length a_vars))%Qc (length a_vars).
Proof.
  intros Hnone; unfold distribution.
  assert (Hraw : map value_or_zero a_vars = repeat 0%Qc (length a_vars)).
  { rewrite <- map_constant; apply map_ext_in; intros v Hv.
    rewrite Forall_forall in Hnone; unfold value_or_zero.
    rewrite (Hnone v Hv); reflexivity. }
  rewrite Hraw, np_sum_repeat, repeat_length.
  replace (Qc_of_nat (length a_vars) * 0)%Qc with 0%Qc by ring.
  change (Qc_eq_bool 0%Qc 0%Qc) with true; cbv iota.
  rewrite map_constant, repeat_length; reflexivity.
Qed.

Lemma total_claims_expr_number (ags : list Agent.t) (t : nat) :
  Forall (fun agent => Agent.get_columns agent = []) ags ->
  total_claims_expr ags t = ENum 0%Qc.
Proof.
  intros H; unfold total_claims_expr, enumerate; generalize 0.
  induction H as [| x ags Hx Hags IH]; intros i; simpl; [reflexivity |].
  rewrite Hx; unfold weighted_expr_of; simpl; apply IH.
Qed.

(** X4. When the solver reports an optimal status and keeps its contract
    up to a tolerance [eps] below 1 on a well-formed instance, the vector
    that [get_decision_distribution] holds for an agent with at least one
    column is the list of the values the solver assigned to the agent's
    variables divided by their sum, which lies within [eps] of 1: every
    weight is within [eps] of the solver's value, and the weights are the
    solver's values themselves when these sum to exactly 1. *)
Theorem optimal_values_are_returned_within_tolerance (self : MasterProblem)
  (problem : Problem) (eps : Qc) (a : nat) (agent : Agent.t) :
  well_formed self ->
  snd (formulate self) = inr problem ->
  status (cvx_solve problem) = Optimal ->
  (0 <= eps)%Qc -> (eps < 1)%Qc ->
  solver_contract eps problem (cvx_solve problem) ->
  nth_error (agents self) a = Some agent ->
  Agent.get_columns agent <> [] ->
  let raw := map (value_at (primal (cvx_solve problem)) a)
                 (range (length (Agent.get_columns agent))) in
  exists dist,
    nth_error (get_decision_distribution (fst (solve self))) a = Some dist /\
    (1 - eps <= np_sum raw)%Qc /\ (np_sum raw <= 1 + eps)%Qc /\
    dist = map (fun x => (x / np_sum raw)%Qc) raw /\
    (forall c x d, nth_error raw c = Some x -> nth_error dist c = Some d ->
                   (x - eps <= d)%Qc /\ (d <= x + eps)%Qc) /\
    (np_sum raw = 1%Qc -> dist = raw).
Proof.
  intros Hwf Hp Hst Heps Heps1 Hcontract Ha Hcols; cbv zeta.
  unfold solver_contract in Hcontract; rewrite Hst in Hcontract.
  destruct Hcontract as (rho & Hfeas & Hprimal & _).
  destruct (formulate_inv self problem Hwf Hp) as (E & _).
  rewrite E in Hfeas; apply (feasible_within_problem_of eps self rho Heps) in Hfeas.
  destruct Hfeas as (Hnn & Hsum & _).
  assert (Hen : In (a, agent) (enumerate (agents self))).
  { apply (nth_error_In _ a); unfold enumerate.
    rewrite nth_error_enumerate_from, Ha; reflexivity. }
  destruct (Hsum _ Hen) as (Hlow & Hhigh); unfold weight_sum in Hlow, Hhigh.
  simpl in Hlow, Hhigh.
  pose proof (nth_error_vars_of (solved_values self) _ a agent Ha) as Hrow.
  rewrite <- solve_decision_vars in Hrow.
  set (a_vars := map _ _) in Hrow.
  set (raw := map (value_at (primal (cvx_solve problem)) a)
                  (range (length (Agent.get_columns agent)))).
  assert (Hraw : map value_or_zero a_vars = raw).
  { unfold a_vars, raw; rewrite map_map; apply map_ext; intros c.
    unfold value_or_zero, value_at, solved_values; simpl.
    rewrite Hp; reflexivity. }
  assert (Hrho : raw = map (rho a) (range (length (Agent.get_columns agent)))).
  { unfold raw; apply map_ext; intros c; unfold value_at.
    rewrite Hprimal; reflexivity. }
  rewrite <- Hrho in Hlow, Hhigh.
  assert (Hs : np_sum raw <> 0%Qc)
    by (intros E0; rewrite E0 in Hlow; qc2q; lra).
  assert (Hne : a_vars <> []).
  { intros En; apply Hcols, length_zero_iff_nil.
    apply (f_equal (@length _)) in En; unfold a_vars, range in En.
    rewrite length_map, length_seq in En; exact En. }
  destruct (distribution_spec a_vars Hne) as (_ & _ & Hnorm & _).
  rewrite Hraw in Hnorm; specialize (Hnorm Hs).
  assert (Hvars : Forall (fun v => (0 <= value_or_zero v)%Qc) a_vars).
  { rewrite <- Forall_map, Hraw, Hrho, Forall_map.
    apply Forall_forall; intros c _; apply Hnn. }
  pose proof (distribution_bounds a_vars Hvars) as Hbounds.
  exists (distribution a_vars).
  split; [unfold get_decision_distribution; rewrite nth_error_map, Hrow;
          reflexivity |].
  split; [exact Hlow | split; [exact Hhigh | split; [exact Hnorm |]]].
  split.
  - intros c x d Hx Hd.
    assert (Hin : In d (distribution a_vars))
      by (eapply nth_error_In; exact Hd).
    rewrite Forall_forall in Hbounds; destruct (Hbounds d Hin) as (Hd0 & Hd1).
    rewrite Hnorm, nth_error_map, Hx in Hd; inversion Hd as [Ed].
    rewrite Ed in *.
    apply (normalised_entry_near x (np_sum raw) d eps);
      [symmetry; exact Ed | exact Hs | exact Hd0 | exact Hd1 | exact Hlow
       | exact Hhigh].
  - intros E1; rewrite Hnorm, E1.
    rewrite <- (map_id raw) at 2; apply map_ext; intros x.
    field; apply Q_apart_0_1.
Qed.

(** X5. Whatever the outcome of [solve], [get_decision_distribution] then
    holds one vector per agent, in agent order, with as many entries as the
    agent has columns (none for an agent without columns); when the solver
    keeps its contract every entry lies between 0 and 1. *)
Theorem distribution_shape_and_bounds (self : MasterProblem) (eps : Qc) :
  let dists := get_decision_distribution (fst (solve self)) in
  map (@length Qc) dists =
  map (fun agent => length (Agent.get_columns agent)) (agents self) /\
  ((forall problem,
       snd (formulate self) = inr problem ->
       solver_contract eps problem (cvx_solve problem)) ->
   Forall (Forall (fun w => (0 <= w)%Qc /\ (w <= 1)%Qc)) dists).
Proof.
  cbv zeta; unfold get_decision_distribution.
  rewrite solve_decision_vars; unfold vars_of; split.
  - rewrite !map_map.
    rewrite <- (map_snd_enumerate_from 0 (agents self)) at 2.
    rewrite map_map; apply map_ext; intros p.
    unfold range; rewrite length_distribution, length_map, length_seq.
    reflexivity.
  - intros Hcontract; rewrite !Forall_map; apply Forall_forall; intros p _.
    apply distribution_bounds; rewrite Forall_map; apply Forall_forall.
    intros c _; unfold value_or_zero; simpl.
    apply (solved_values_nonneg self eps); exact Hcontract.
Qed.

(** X6. When a call of [solve] leaves every variable unset (the solver
    reported a status other than optimal, or the formulation raised before
    the solver was reached), [get_decision_distribution] holds the uniform
    vector over the columns of every agent, whatever duals the solver left
    on the constraints. *)
Theorem unset_values_give_uniform_distribution (self : MasterProblem) :
  (forall problem,
      snd (formulate self) = inr problem ->
      forall a c, primal (cvx_solve problem) a c = None) ->
  get_decision_distribution (fst (solve self)) =
  map (fun agent =>
         let n := length (Agent.get_columns agent) in
         repeat (1 / Qc_of_nat n)%Qc n)
      (agents self).
Proof.
  intros Hunset.
  assert (Hval : forall a c, solved_values self a c = None).
  { intros a c; unfold solved_values.
    destruct (snd (formulate self)) as [e | problem] eqn:E; [reflexivity |].
    apply (Hunset problem eq_refl). }
  unfold get_decision_distribution.
  rewrite solve_decision_vars; unfold vars_of.
  rewrite map_map.
  rewrite <- (map_snd_enumerate_from 0 (agents self)) at 2.
  rewrite map_map; apply map_ext; intros p.
  rewrite distribution_unset.
  - unfold range; rewrite length_map, length_seq; reflexivity.
  - rewrite Forall_map; apply Forall_forall; intros c _; apply Hval.
Qed.

(** X7. On a well-formed instance with at least one period in which no
    agent offers any column, every capacity constraint [solve] builds is a
    plain Python boolean ([0 <= resource_capacity]), so [get_dual_prices]
    raises [AttributeError] after [solve] instead of returning prices. *)
Theorem dual_prices_without_columns_raise (self : MasterProblem) :
  well_formed self ->
  Forall (fun agent => Agent.get_columns agent = []) (agents self) ->
  0 < horizon self ->
  resource_constraints (fst (solve self)) =
  repeat (PyBool (Qc_leb 0%Qc (resource_capacity self))) (horizon self) /\
  get_dual_prices (fst (solve self)) = inl AttributeError.
Proof.
  intros Hwf Hempty Hh.
  assert (Hrc : resource_constraints (fst (solve self)) =
                repeat (PyBool (Qc_leb 0%Qc (resource_capacity self)))
                       (horizon self)).
  { unfold solve; rewrite (formulate_constraints_ok self Hwf).
    assert (Hf : resource_constraints (formulated self) =
                 repeat (PyBool (Qc_leb 0%Qc (resource_capacity self)))
                        (horizon self)).
    { cbn [formulated set_resource_constraints resource_constraints].
      replace (repeat (PyBool (Qc_leb 0%Qc (resource_capacity self)))
                      (horizon self))
        with (map (fun _ : nat => PyBool (Qc_leb 0%Qc (resource_capacity self)))
                  (range (horizon self)))
        by (rewrite map_constant; unfold range; rewrite length_seq;
            reflexivity).
      apply map_ext; intros t.
      unfold resource_constraint_of.
      rewrite (total_claims_expr_number _ t Hempty); reflexivity. }
    destruct (total_expected_reward (formulated self)) as [e | total].
    - exact Hf.
    - generalize {| objective := total;
                    constraints := constraints (problem_of self) |}.
      intros problem; cbn [fst snd store_solution resource_constraints].
      rewrite Hf, map_repeat; reflexivity. }
  split; [exact Hrc |].
  unfold get_dual_prices; rewrite Hrc.
  destruct (horizon self) as [| h]; [lia | reflexivity].
Qed.

(** ** The realized penalty and the objective value *)

(** A realized-penalty pass that succeeds sums one variance per period
    under the timestep scope and takes one variance under the cumulative
    scope. *)
Lemma realized_penalty_inv (self : MasterProblem)
  (val : nat -> nat -> option Qc) (r : Qc) :
  num_agents self = length (agents self) ->
  decision_vars self = vars_of val (agents self) ->
  compute_realized_fairness_penalty self = inr r ->
  (fairness_scope self = "timestep" /\
   r = np_sum (map (fun t => variance_penalty_numpy
                               (expected_claims_of self val (claim_of t)))
                   (range (horizon self)))) \/
  (fairness_scope self = "cumulative" /\
   r = variance_penalty_numpy
         (expected_claims_of self val cumulative_claim_of)).
Proof.
  intros Hn Hdv; unfold compute_realized_fairness_penalty.
  destruct (String.eqb (fairness_scope self) "timestep") eqn:Ets.
  - intros H; left; split; [apply String.eqb_eq; exact Ets |].
    apply (foldM_inv _ (fun acc t =>
                          (acc + variance_penalty_numpy
                                   (expected_claims_of self val (claim_of t)))%Qc))
      in H.
    + rewrite H, fold_left_plus_map; ring.
    + clear H; intros acc t y _ Hy.
      apply bind_inr in Hy as (l & Hl & Hy).
      apply (numeric_claims_inv self val _ (claim_of t) l Hn Hdv) in Hl;
        [| intros column kk; apply claim_at_inv].
      subst l; inversion Hy; reflexivity.
  - destruct (String.eqb (fairness_scope self) "cumulative") eqn:Ecu;
      [| discriminate].
    intros H; right; split; [apply String.eqb_eq; exact Ecu |].
    apply bind_inr in H as (l & Hl & H).
    apply (numeric_claims_inv self val _ cumulative_claim_of l Hn Hdv) in Hl;
      [| intros column kk; apply cumulative_claim_inv].
    subst l; inversion H; reflexivity.
Qed.

(** The parts of the triple a successful [solve] returns. *)
Lemma solve_inr_parts (self solved : MasterProblem) (v : xvalue)
  (dists : list (list Qc)) (impact : Qc) :
  num_agents self = length (agents self) ->
  solve self = (solved, inr (v, dists, impact)) ->
  exists problem realized,
    snd (formulate self) = inr problem /\
    v = opt_value (cvx_solve problem) /\
    compute_realized_fairness_penalty solved = inr realized /\
    impact = (langrangian_weight self * realized)%Qc /\
    ((fairness_scope self = "timestep" /\
      realized =
      np_sum (map (fun t => variance_penalty_numpy
                              (expected_claims_of self (solved_values self)
                                                  (claim_of t)))
                  (range (horizon self)))) \/
     (fairness_scope self = "cumulative" /\
      realized =
      variance_penalty_numpy
        (expected_claims_of self (solved_values self) cumulative_claim_of))).
Proof.
  intros Hn Hsolve.
  destruct (solve_inr self solved _ Hsolve)
    as ((Hags & Hh & Hna & _ & Hw & _ & Hsc) & Hdv & Hrep & problem & Hp & Hlp).
  unfold report in Hrep.
  apply bind_inr in Hrep as (gs & _ & Hrep).
  apply bind_inr in Hrep as (realized & Hr & Hrep).
  rewrite Hlp in Hrep; simpl in Hrep.
  inversion Hrep; subst v dists impact; clear Hrep.
  exists problem, realized.
  split; [exact Hp | split; [reflexivity | split; [exact Hr |]]].
  split; [rewrite Hw; reflexivity |].
  rewrite <- Hags in Hdv.
  assert (Hn' : num_agents solved = length (agents solved))
    by (rewrite Hna, Hags; exact Hn).
  pose proof (realized_penalty_inv solved (solved_values self) realized
                                   Hn' Hdv Hr) as H.
  unfold expected_claims_of in *; rewrite Hags, Hh, Hsc in H; exact H.
Qed.

Lemma expected_claims_of_values (self : MasterProblem)
  (val : nat -> nat -> option Qc) (rho : nat -> nat -> Qc) (k : Column -> Qc) :
  (forall a c, val a c = Some (rho a c)) ->
  expected_claims_of self val k =
  map (expected_claim rho k) (enumerate (agents self)).
Proof.
  intros Hval; unfold expected_claims_of; apply map_ext; intros p.
  unfold expected_claim; f_equal; apply map_ext; intros q.
  unfold value_at; rewrite Hval; reflexivity.
Qed.

(** X8. When [solve] returns on a constructed instance, the fairness
    impact it reports is [langrangian_weight] times the value of
    [compute_realized_fairness_penalty], which is the sum over the periods
    of the numeric variance of the agents' expected claims in that period
    under the timestep scope, and the numeric variance of the agents'
    expected cumulative claims under the cumulative scope. The impact is
    computed whatever the sign of the weight; it is 0 when the weight
    is 0. *)
Theorem fairness_impact_is_weighted_realized_penalty
  (self solved : MasterProblem) (v : xvalue) (dists : list (list Qc))
  (impact : Qc) :
  num_agents self = length (agents self) ->
  solve self = (solved, inr (v, dists, impact)) ->
  exists realized,
    compute_realized_fairness_penalty solved = inr realized /\
    impact = (langrangian_weight self * realized)%Qc /\
    (langrangian_weight self = 0%Qc -> impact = 0%Qc) /\
    (fairness_scope self = "timestep" \/ fairness_scope self = "cumulative") /\
    (fairness_scope self = "timestep" ->
     realized =
     np_sum (map (fun t => variance_penalty_numpy
                             (expected_claims_of self (solved_values self)
                                                 (claim_of t)))
                 (range (horizon self)))) /\
    (fairness_scope self = "cumulative" ->
     realized =
     variance_penalty_numpy
       (expected_claims_of self (solved_values self) cumulative_claim_of)).
Proof.
  intros Hn Hsolve.
  destruct (solve_inr_parts self solved v dists impact Hn Hsolve)
    as (problem & realized & _ & _ & Hr & Himp & Hsc).
  exists realized.
  split; [exact Hr | split; [exact Himp |]].
  split; [intros H0; rewrite Himp, H0; ring |].
  destruct Hsc as [(Hsc & Hval) | (Hsc & Hval)].
  - split; [left; exact Hsc |].
    split; [intros _; exact Hval | rewrite Hsc; discriminate].
  - split; [right; exact Hsc |].
    split; [rewrite Hsc; discriminate | intros _; exact Hval].
Qed.

(** X9. When [solve] returns on a well-formed instance, the solver reports
    an optimal status and keeps its contract, and the symbolic variance
    penalty denotes the numeric one, the objective value [solve] returns is
    the expected net reward of the solved mixture minus the reported
    fairness impact when [langrangian_weight > 0], and the expected net
    reward alone otherwise. *)
Theorem objective_value_is_reward_minus_impact
  (self solved : MasterProblem) (v : xvalue) (dists : list (list Qc))
  (impact eps : Qc) :
  well_formed self ->
  solve self = (solved, inr (v, dists, impact)) ->
  status (cvx_solve (problem_of self)) = Optimal ->
  solver_contract eps (problem_of self) (cvx_solve (problem_of self)) ->
  (forall values, variance_penalty_value values = variance_penalty_numpy values) ->
  exists rho,
    (forall a c, solved_values self a c = Some (rho a c)) /\
    v = Finite (spec_reward self rho -
                (if Qc_ltb 0%Qc (langrangian_weight self)
                 then impact else 0))%Qc.
Proof.
  intros Hwf Hsolve Hst Hcontract Hvar.
  destruct (solve_inr_parts self solved v dists impact (proj1 Hwf) Hsolve)
    as (problem & realized & Hp & Hv & _ & Himp & Hreal).
  destruct (formulate_inv self problem Hwf Hp) as (-> & _ & Hsc).
  unfold solver_contract in Hcontract; rewrite Hst in Hcontract.
  destruct Hcontract as (rho & _ & Hprimal & Hopt & _).
  assert (Hval : forall a c, solved_values self a c = Some (rho a c))
    by (intros a c; unfold solved_values; rewrite Hp; apply Hprimal).
  exists rho; split; [exact Hval |].
  rewrite Hv, Hopt; f_equal.
  cbn [objective problem_of].
  rewrite eval_rewards_of, (eval_penalized_of self rho Hsc).
  destruct (Qc_ltb 0%Qc (langrangian_weight self)); [| ring].
  assert (Hpen : spec_fairness_penalty self rho = realized).
  { unfold spec_fairness_penalty.
    destruct Hreal as [(Escope & ->) | (Escope & ->)]; rewrite Escope; simpl.
    - f_equal; apply map_ext; intros t.
      rewrite Hvar, (expected_claims_of_values self _ rho _ Hval).
      reflexivity.
    - rewrite Hvar, (expected_claims_of_values self _ rho _ Hval).
      reflexivity. }
  rewrite Hpen, Himp; ring.
Qed.

(** ** Solving again *)

Lemma resource_loop_set_lp (l : option LP) (ts : list nat) (s : MasterProblem) :
  resource_loop (set_lp s l) ts =
  (set_lp (fst (resource_loop s ts)) l, snd (resource_loop s ts)).
Proof.
  revert s; induction ts as [| t ts IH]; intros s; simpl; [reflexivity |].
  change (expected_total_claims (set_lp s l) t)
    with (expected_total_claims s t).
  destruct (expected_total_claims s t) as [e | total]; [reflexivity |].
  apply (IH (set_resource_constraints
               s (resource_constraints s ++
                  [py_le (num_agents s + t) total (resource_capacity s)]))).
Qed.

(** On a constructed instance the formulation reads the configuration
    only: from any state with the same configuration it builds the same
    variables, constraints and problem, and leaves [lp] as it found it. *)
Lemma formulate_same_config (self self' : MasterProblem) :
  num_agents self = length (agents self) ->
  same_config self self' ->
  formulate self' =
  (set_lp (fst (formulate self)) (lp self'), snd (formulate self)).
Proof.
  intros Hn Hc.
  destruct self' as [ags h n cap w ft fs dv l rc].
  unfold same_config in Hc; simpl in Hc.
  destruct Hc as (-> & -> & -> & -> & -> & -> & ->).
  unfold formulate.
  set (s1 := set_decision_vars self (create_decision_vars (agents self))).
  set (s1' := set_decision_vars _ _).
  change (agent_constraints s1') with (agent_constraints s1).
  rewrite (agent_constraints_ok s1 Hn eq_refl).
  change (resource_loop (set_resource_constraints s1' []) (range (horizon s1')))
    with (resource_loop (set_lp (set_resource_constraints s1 []) l)
                        (range (horizon s1))).
  rewrite resource_loop_set_lp.
  destruct (resource_loop (set_resource_constraints s1 []) (range (horizon s1)))
    as (s2 & [e |]); cbn [fst snd]; [reflexivity |].
  change (total_expected_reward (set_lp s2 l)) with (total_expected_reward s2).
  destruct (total_expected_reward s2); reflexivity.
Qed.

Lemma set_lp_same (s : MasterProblem) : set_lp s (lp s) = s.
Proof. destruct s; reflexivity. Qed.

Lemma solve_same_config (self self' : MasterProblem) :
  num_agents self = length (agents self) ->
  same_config self self' ->
  snd (solve self') = snd (solve self) /\
  decision_vars (fst (solve self')) = decision_vars (fst (solve self)) /\
  resource_constraints (fst (solve self')) =
  resource_constraints (fst (solve self)) /\
  (forall problem, snd (formulate self) = inr problem ->
                   solve self' = solve self) /\
  (forall e, snd (formulate self) = inl e ->
             solve self' = (set_lp (fst (solve self)) (lp self'), inl e)).
Proof.
  intros Hn Hc; unfold solve.
  rewrite (formulate_same_config self self' Hn Hc).
  destruct (formulate self) as (s1 & [e | p]); cbn [fst snd].
  - repeat split; [intros problem H; discriminate |].
    intros e' H; inversion H; reflexivity.
  - repeat split; intros e' H; discriminate.
Qed.

(** X10. On a constructed instance [solve] reads nothing a previous call
    left behind: from any state with the same configuration (agents,
    horizon, capacity, weight, fairness type and scope) it returns the same
    result or raises the same exception, and leaves the same variables and
    capacity constraints. In particular, calling [solve] a second time
    reproduces the state and the result of the first call. *)
Theorem solve_reads_only_the_configuration (self self' : MasterProblem) :
  num_agents self = length (agents self) ->
  same_config self self' ->
  snd (solve self') = snd (solve self) /\
  decision_vars (fst (solve self')) = decision_vars (fst (solve self)) /\
  resource_constraints (fst (solve self')) =
  resource_constraints (fst (solve self)) /\
  same_config self (fst (solve self')) /\
  solve (fst (solve self)) = solve self.
Proof.
  intros Hn Hc.
  destruct (solve_same_config self self' Hn Hc) as (H1 & H2 & H3 & _).
  split; [exact H1 | split; [exact H2 | split; [exact H3 |]]].
  split.
  - destruct Hc as (Ea & Eh & En & Ec & Ew & Et & Es).
    destruct (solve_config self') as (Ea' & Eh' & En' & Ec' & Ew' & Et' & Es').
    unfold same_config.
    rewrite Ea', Eh', En', Ec', Ew', Et', Es'; repeat split; assumption.
  - destruct (solve_same_config self (fst (solve self)) Hn (solve_config self))
      as (_ & _ & _ & Hok & Herr).
    destruct (snd (formulate self)) as [e | problem] eqn:E.
    + rewrite (Herr e eq_refl), set_lp_same.
      unfold solve in *; destruct (formulate self) as (s1 & r).
      simpl in E; subst r; reflexivity.
    + apply (Hok problem eq_refl).
Qed.

(** ** Before the first solve *)

Lemma index_nil {A : Type} (i : nat) : index (@nil A) i = inl IndexError.
Proof. unfold index; destruct i; reflexivity. Qed.

Lemma weighted_value_no_vars (self : MasterProblem) (coef : Column -> result Qc)
  (a : nat) (agent : Agent.t) (start : Qc) :
  decision_vars self = [] ->
  weighted_value self coef a agent start =
  match Agent.get_columns agent with
  | [] => inr start
  | _ :: _ => inl IndexError
  end.
Proof.
  intros Hdv; unfold weighted_value, enumerate.
  destruct (Agent.get_columns agent) as [| column cols]; [reflexivity |].
  simpl; unfold decision_var; rewrite Hdv, index_nil; reflexivity.
Qed.

Lemma mapM_some_error {A B : Type} (f : A -> result B) (e : exn) (l : list A) :
  (forall x, In x l -> f x = inl e \/ exists y, f x = inr y) ->
  (exists x, In x l /\ f x = inl e) ->
  mapM f l = inl e.
Proof.
  induction l as [| x l IH]; intros Hall (x0 & Hin & Hx0); [contradiction |].
  simpl.
  destruct (Hall x (or_introl eq_refl)) as [Hx | (y & Hx)]; rewrite Hx;
    [reflexivity |].
  simpl; rewrite IH; [reflexivity | intros; apply Hall; right; assumption |].
  destruct Hin as [-> | Hin]; [| exists x0; split; assumption].
  rewrite Hx in Hx0; discriminate.
Qed.

Lemma numeric_claims_no_vars (self : MasterProblem)
  (coef : Column -> result Qc) :
  num_agents self = length (agents self) ->
  decision_vars self = [] ->
  has_column self ->
  numeric_claims self coef = inl IndexError.
Proof.
  intros Hn Hdv (agent & Hin & Hcols); unfold numeric_claims.
  rewrite (mapM_agents self
             (fun a agent => weighted_value self coef a agent 0%Qc) Hn).
  apply mapM_some_error.
  - intros p _; rewrite (weighted_value_no_vars self coef _ _ _ Hdv).
    destruct (Agent.get_columns (snd p)); [right; eexists |left]; reflexivity.
  - apply In_nth_error in Hin as (a & Ha).
    exists (a, agent); split.
    + apply (nth_error_In _ a); unfold enumerate.
      rewrite nth_error_enumerate_from, Ha; reflexivity.
    + rewrite (weighted_value_no_vars self coef _ _ _ Hdv); simpl.
      destruct (Agent.get_columns agent); [contradiction | reflexivity].
Qed.

(** X11. On an instance fresh from the constructor, before any call of
    [solve]: [get_dual_prices] returns the empty array and
    [get_decision_distribution] the empty list; when some agent offers a
    column, [compute_fairness_gradients] and
    [compute_realized_fairness_penalty] raise [IndexError] on the empty
    [decision_vars] under the cumulative scope, and under the timestep
    scope with at least one period. *)
Theorem extraction_before_first_solve (ags : list Agent.t)
  (capacity weight : Qc) (ftype fscope : string) (self : MasterProblem) :
  init ags capacity weight ftype fscope = inr self ->
  get_dual_prices self = inr [] /\
  get_decision_distribution self = [] /\
  (has_column self ->
   (fscope = "timestep" /\ 0 < horizon self) \/ fscope = "cumulative" ->
   compute_fairness_gradients self = inl IndexError /\
   compute_realized_fairness_penalty self = inl IndexError).
Proof.
  unfold init; destruct ags as [| first rest]; [discriminate |].
  intros H; inversion H; subst self; clear H.
  split; [reflexivity | split; [reflexivity |]].
  set (self := {| agents := first :: rest |}).
  intros Hcol Hscope.
  assert (Hnc : forall coef, numeric_claims self coef = inl IndexError)
    by (intros coef; apply numeric_claims_no_vars;
        [reflexivity | reflexivity | exact Hcol]).
  unfold compute_fairness_gradients, compute_realized_fairness_penalty.
  change (fairness_scope self) with fscope.
  change (horizon self) with (Agent.horizon first) in *.
  destruct Hscope as [(-> & Hh) | ->]; simpl String.eqb; cbv iota.
  - destruct (Agent.horizon first) as [| h]; [lia |].
    unfold range; simpl seq; simpl mapM; simpl foldM.
    rewrite Hnc; split; reflexivity.
  - rewrite Hnc; split; reflexivity.
Qed.

(** ** A fairness type other than variance *)

(** X12. On a well-formed instance with [langrangian_weight > 0], a
    [fairness_type] other than "variance" makes [solve] raise
    [UnboundLocalError] for the local [fairness_penalty] while it assembles
    the objective (under the cumulative scope, and under the timestep scope
    with at least one period): the variables and the constraints are
    rebuilt, no problem is created and the solver is not called. *)
Theorem unsupported_fairness_type_raises_UnboundLocalError
  (self : MasterProblem) :
  well_formed self ->
  (0 < langrangian_weight self)%Qc ->
  fairness_type self <> "variance" ->
  (fairness_scope self = "timestep" /\ 0 < horizon self) \/
  fairness_scope self = "cumulative" ->
  solve self = (formulated self, inl (UnboundLocalError "fairness_penalty")) /\
  lp (formulated self) = lp self.
Proof.
  intros Hwf Hw Hty Hscope; split; [| reflexivity].
  unfold solve; rewrite (formulate_constraints_ok self Hwf).
  assert (Hpen : forall values,
             fairness_penalty (formulated self) values =
             inl (UnboundLocalError "fairness_penalty")).
  { intros values; unfold fairness_penalty.
    change (fairness_type (formulated self)) with (fairness_type self).
    apply String.eqb_neq in Hty; rewrite Hty; reflexivity. }
  assert (Hwf' : well_formed (formulated self)) by exact Hwf.
  assert (Htotal : total_expected_reward (formulated self) =
                   inl (UnboundLocalError "fairness_penalty")).
  { unfold total_expected_reward, subtract_penalty.
    change (langrangian_weight (formulated self)) with (langrangian_weight self).
    change (fairness_scope (formulated self)) with (fairness_scope self).
    change (horizon (formulated self)) with (horizon self).
    apply Qc_ltb_iff in Hw; rewrite Hw.
    destruct Hscope as [(Hsc & Hh) | Hsc]; rewrite Hsc; simpl String.eqb;
      cbv iota.
    - assert (Hec : expected_claims (formulated self) (claim_at 0) =
                    inr (penalty_args (formulated self) (claim_of 0))).
      { apply (expected_claims_ok _ (fun _ _ => None));
          [apply Hwf' | reflexivity |].
        intros agent column Hag Hcolumn.
        apply (well_formed_claim_at (formulated self) agent 0 Hwf' Hag Hh
                                    column Hcolumn). }
      destruct (horizon self) as [| h]; [lia |].
      unfold range; simpl seq; simpl foldM.
      rewrite Hec; simpl; rewrite Hpen; reflexivity.
    - rewrite (expected_claims_ok _ (fun _ _ => None) cumulative_claim
                                  cumulative_claim_of);
        [| apply Hwf' | reflexivity | reflexivity].
      simpl; rewrite Hpen; reflexivity. }
  rewrite Htotal; reflexivity.
Qed.

(** ** A claims array shorter than the horizon *)

(** A loop whose steps either succeed on good items or raise [e] on the
    others succeeds when every item is good and raises [e] otherwise. *)
Lemma foldM_dichotomy {A B : Type} (f : B -> A -> result B) (good : A -> Prop)
  (e : exn) (l : list A) (acc : B) :
  (forall b x, In x l ->
               (good x /\ exists y, f b x = inr y) \/
               (~ good x /\ f b x = inl e)) ->
  (Forall good l /\ exists r, foldM f l acc = inr r) \/
  (~ Forall good l /\ foldM f l acc = inl e).
Proof.
  revert acc; induction l as [| x l IH]; intros acc H; simpl.
  - left; split; [constructor | eexists; reflexivity].
  - destruct (H acc x (or_introl eq_refl)) as [(Hx & y & Hy) | (Hx & Hy)];
      rewrite Hy; simpl.
    + destruct (IH y) as [(Hl & r & Hr) | (Hl & Hr)];
        [intros; apply H; right; assumption | |].
      * left; split; [constructor; assumption | exists r; exact Hr].
      * right; split; [| exact Hr].
        intros Hall; inversion Hall; subst; contradiction.
    + right; split; [| reflexivity].
      intros Hall; inversion Hall; subst; contradiction.
Qed.

Lemma nth_error_in_enumerate {A : Type} (l : list A) (i : nat) (x : A) :
  nth_error l i = Some x -> In (i, x) (enumerate l).
Proof.
  intros H; apply (nth_error_In _ i); unfold enumerate.
  rewrite nth_error_enumerate_from, H; reflexivity.
Qed.

Lemma expected_total_claims_dichotomy (self : MasterProblem)
  (val : nat -> nat -> option Qc) (t : nat) :
  decision_vars self = vars_of val (agents self) ->
  ((forall agent column,
       In agent (agents self) -> In column (Agent.get_columns agent) ->
       t < length (claims column)) /\
   exists total, expected_total_claims self t = inr total) \/
  (expected_total_claims self t = inl IndexError).
Proof.
  intros Hdv; unfold expected_total_claims.
  set (good_column := fun q : nat * Column => t < length (claims (snd q))).
  set (good_agent := fun p : nat * Agent.t =>
                       Forall good_column (enumerate (Agent.get_columns (snd p)))).
  destruct (foldM_dichotomy
              (fun acc p => weighted_expr self (claim_at t) (fst p) (snd p) acc)
              good_agent IndexError (enumerate (agents self)) (ENum 0%Qc))
    as [(Hall & r & Hr) | (_ & Hr)].
  - intros b p Hp; unfold weighted_expr.
    apply foldM_dichotomy; intros b' q Hq.
    rewrite (decision_var_vars_of self val (fst p) (fst q) (snd p) Hdv);
      [| apply in_enumerate; exact Hp | apply in_enumerate_lt; exact Hq].
    simpl; unfold claim_at, index, good_column.
    destruct (nth_error (claims (snd q)) t) as [k |] eqn:Ek.
    + left; split; [| eexists; reflexivity].
      apply nth_error_Some; rewrite Ek; discriminate.
    + right; split; [| reflexivity].
      apply nth_error_None in Ek; lia.
  - left; split; [| exists r; exact Hr].
    intros agent column Hag Hcolumn.
    apply In_nth_error in Hag as (a & Ha).
    apply In_nth_error in Hcolumn as (c & Hc).
    rewrite Forall_forall in Hall.
    assert (Hp : In (a, agent) (enumerate (agents self)))
      by (apply nth_error_in_enumerate; exact Ha).
    specialize (Hall _ Hp); unfold good_agent in Hall.
    rewrite Forall_forall in Hall.
    apply (Hall (c, column)), nth_error_in_enumerate; exact Hc.
  - right; exact Hr.
Qed.

Lemma resource_loop_short (self : MasterProblem)
  (val : nat -> nat -> option Qc) (agent : Agent.t) (column : Column)
  (n i : nat) :
  decision_vars self = vars_of val (agents self) ->
  In agent (agents self) -> In column (Agent.get_columns agent) ->
  i <= length (claims column) < i + n ->
  exists self',
    resource_loop self (seq i n) = (self', Some IndexError) /\
    lp self' = lp self /\
    length (resource_constraints self') + i <=
    length (resource_constraints self) + length (claims column).
Proof.
  revert self i; induction n as [| n IH]; intros self i Hdv Hag Hcolumn Hi;
    [lia |].
  simpl.
  destruct (expected_total_claims_dichotomy self val i Hdv)
    as [(Hgood & total & Ht) | Ht]; rewrite Ht.
  - specialize (Hgood agent column Hag Hcolumn).
    set (self1 := set_resource_constraints self _).
    destruct (IH self1 (S i)) as (self' & Hloop & Hlp & Hlen);
      [exact Hdv | exact Hag | exact Hcolumn | lia |].
    exists self'; split; [exact Hloop | split; [exact Hlp |]].
    unfold self1 in Hlen; simpl in Hlen; rewrite length_app in Hlen.
    simpl in Hlen; lia.
  - exists self; split; [reflexivity | split; [reflexivity | lia]].
Qed.

(** X13. On a constructed instance, a column whose [claims] array has
    fewer entries than [horizon] makes [solve] raise [IndexError] while it
    builds the capacity constraints: no problem is created and the solver
    is not called, and [resource_constraints] is left with the constraints
    of the periods before the failing one, at most as many as the short
    array has entries. *)
Theorem short_claims_raise_IndexError (self : MasterProblem)
  (agent : Agent.t) (column : Column) :
  num_agents self = length (agents self) ->
  In agent (agents self) ->
  In column (Agent.get_columns agent) ->
  length (claims column) < horizon self ->
  snd (solve self) = inl IndexError /\
  lp (fst (solve self)) = lp self /\
  length (resource_constraints (fst (solve self))) <= length (claims column).
Proof.
  intros Hn Hag Hcolumn Hshort; unfold solve, formulate.
  set (self1 := set_decision_vars self (create_decision_vars (agents self))).
  rewrite (agent_constraints_ok self1 Hn eq_refl).
  destruct (resource_loop_short (set_resource_constraints self1 [])
                                (fun _ _ => None) agent column
                                (horizon self1) 0)
    as (self' & Hloop & Hlp & Hlen);
    [reflexivity | exact Hag | exact Hcolumn | simpl; lia |].
  unfold range; rewrite Hloop; simpl.
  split; [reflexivity | split; [exact Hlp |]].
  simpl in Hlen; lia.
Qed.

(** ** A single period *)

Lemma one_period_claim (column : Column) :
  length (claims column) = 1 -> claim_at 0 column = cumulative_claim column.
Proof.
  unfold claim_at, cumulative_claim, index; intros H.
  destruct (claims column) as [| x [| y l]]; try discriminate.
  simpl; rewrite np_sum_single; reflexivity.
Qed.

Lemma index_in {A : Type} (l : list A) (i : nat) (x : A) :
  index l i = inr x -> In x l.
Proof. intros H; apply index_inr in H; eapply nth_error_In; exact H. Qed.

Section OnePeriod.

Variable s : MasterProblem.
Hypothesis one_period :
  Forall (well_formed_agent 1) (agents s).

Lemma one_period_coef (agent : Agent.t) (column : Column) :
  In agent (agents s) -> In column (Agent.get_columns agent) ->
  claim_at 0 column = cumulative_claim column.
Proof.
  intros Hag Hcolumn; apply one_period_claim.
  pose proof one_period as H; rewrite Forall_forall in H.
  destruct (H agent Hag) as (_ & Hcols).
  rewrite Forall_forall in Hcols; apply (Hcols column Hcolumn).
Qed.

Lemma one_period_expected_claims :
  expected_claims s (claim_at 0) = expected_claims s cumulative_claim.
Proof.
  unfold expected_claims; apply mapM_ext; intros a _.
  destruct (index (agents s) a) as [e | agent] eqn:Ea; [reflexivity |].
  simpl; unfold weighted_expr; apply foldM_ext; intros acc q Hq.
  rewrite (one_period_coef agent (snd q));
    [reflexivity | eapply index_in; exact Ea | apply in_enumerate_in; exact Hq].
Qed.

Lemma one_period_numeric_claims :
  numeric_claims s (claim_at 0) = numeric_claims s cumulative_claim.
Proof.
  unfold numeric_claims; apply mapM_ext; intros a _.
  destruct (index (agents s) a) as [e | agent] eqn:Ea; [reflexivity |].
  simpl; unfold weighted_value; apply foldM_ext; intros acc q Hq.
  rewrite (one_period_coef agent (snd q));
    [reflexivity | eapply index_in; exact Ea | apply in_enumerate_in; exact Hq].
Qed.

Lemma one_period_subtract_penalty (total : expr) :
  horizon s = 1 ->
  subtract_penalty (set_fairness_scope s "cumulative") total =
  subtract_penalty (set_fairness_scope s "timestep") total.
Proof.
  intros Hh; unfold subtract_penalty.
  cbn [set_fairness_scope langrangian_weight fairness_scope horizon].
  rewrite Hh.
  destruct (Qc_ltb 0%Qc (langrangian_weight s)); [| reflexivity].
  simpl String.eqb; cbv iota.
  unfold range; simpl seq; simpl foldM.
  change (expected_claims (set_fairness_scope s "cumulative") cumulative_claim)
    with (expected_claims s cumulative_claim).
  change (expected_claims (set_fairness_scope s "timestep") (claim_at 0))
    with (expected_claims s (claim_at 0)).
  rewrite one_period_expected_claims.
  destruct (expected_claims s cumulative_claim) as [e | values];
    [reflexivity |].
  simpl.
  change (fairness_penalty (set_fairness_scope s "cumulative") values)
    with (fairness_penalty s values).
  change (fairness_penalty (set_fairness_scope s "timestep") values)
    with (fairness_penalty s values).
  destruct (fairness_penalty s values); reflexivity.
Qed.

Lemma one_period_gradients :
  horizon s = 1 ->
  compute_fairness_gradients (set_fairness_scope s "cumulative") =
  compute_fairness_gradients (set_fairness_scope s "timestep").
Proof.
  intros Hh; unfold compute_fairness_gradients.
  cbn [set_fairness_scope fairness_scope horizon num_agents].
  rewrite Hh; simpl String.eqb; cbv iota.
  unfold range; simpl seq; simpl mapM at 2.
  change (numeric_claims (set_fairness_scope s "cumulative") cumulative_claim)
    with (numeric_claims s cumulative_claim).
  change (numeric_claims (set_fairness_scope s "timestep") (claim_at 0))
    with (numeric_claims s (claim_at 0)).
  rewrite one_period_numeric_claims.
  destruct (numeric_claims s cumulative_claim) as [e | values];
    [reflexivity |].
  simpl.
  change (gradient_primitive (set_fairness_scope s "cumulative") values)
    with (gradient_primitive s values).
  change (gradient_primitive (set_fairness_scope s "timestep") values)
    with (gradient_primitive s values).
  destruct (gradient_primitive s values) as [e | grad]; [reflexivity |].
  simpl; apply mapM_ext; intros a _.
  destruct (index grad a); reflexivity.
Qed.

Lemma one_period_realized_penalty :
  horizon s = 1 ->
  compute_realized_fairness_penalty (set_fairness_scope s "cumulative") =
  compute_realized_fairness_penalty (set_fairness_scope s "timestep").
Proof.
  intros Hh; unfold compute_realized_fairness_penalty.
  cbn [set_fairness_scope fairness_scope horizon].
  rewrite Hh; simpl String.eqb; cbv iota.
  unfold range; simpl seq; simpl foldM.
  change (numeric_claims (set_fairness_scope s "cumulative") cumulative_claim)
    with (numeric_claims s cumulative_claim).
  change (numeric_claims (set_fairness_scope s "timestep") (claim_at 0))
    with (numeric_claims s (claim_at 0)).
  rewrite one_period_numeric_claims.
  destruct (numeric_claims s cumulative_claim) as [e | values];
    [reflexivity |].
  simpl; f_equal; ring.
Qed.

End OnePeriod.

(** X14. On a well-formed instance with a single period, the cumulative
    scope gives what the timestep scope gives: [solve] hands the same
    problem to the solver and returns the same result or raises the same
    exception, and afterwards [compute_fairness_gradients] and
    [compute_realized_fairness_penalty] agree as well. *)
Theorem one_period_scopes_agree (self : MasterProblem) :
  well_formed self ->
  horizon self = 1 ->
  let timestep := set_fairness_scope self "timestep" in
  let cumulative := set_fairness_scope self "cumulative" in
  snd (formulate cumulative) = snd (formulate timestep) /\
  snd (solve cumulative) = snd (solve timestep) /\
  compute_fairness_gradients (fst (solve cumulative)) =
  compute_fairness_gradients (fst (solve timestep)) /\
  compute_realized_fairness_penalty (fst (solve cumulative)) =
  compute_realized_fairness_penalty (fst (solve timestep)).
Proof.
  intros Hwf Hh; cbv zeta.
  assert (Hags : forall sol : option (Problem * Solution),
             Forall (well_formed_agent 1)
                    (agents (match sol with
                             | Some ps => store_solution (formulated self)
                                                         (fst ps) (snd ps)
                             | None => formulated self
                             end))).
  { intros sol; destruct Hwf as (_ & Hall); rewrite Hh in Hall.
    destruct sol; exact Hall. }
  assert (Hwf_t : well_formed (set_fairness_scope self "timestep"))
    by exact Hwf.
  assert (Hwf_c : well_formed (set_fairness_scope self "cumulative"))
    by exact Hwf.
  assert (Htotal :
            total_expected_reward
              (formulated (set_fairness_scope self "cumulative")) =
            total_expected_reward
              (formulated (set_fairness_scope self "timestep"))).
  { unfold total_expected_reward.
    change (formulated (set_fairness_scope self "cumulative"))
      with (set_fairness_scope (formulated self) "cumulative").
    change (formulated (set_fairness_scope self "timestep"))
      with (set_fairness_scope (formulated self) "timestep").
    rewrite (one_period_subtract_penalty (formulated self) (Hags None) _ Hh).
    reflexivity. }
  unfold solve.
  rewrite (formulate_constraints_ok _ Hwf_t), (formulate_constraints_ok _ Hwf_c).
  rewrite Htotal; cbn [snd].
  change (constraints (problem_of (set_fairness_scope self "cumulative")))
    with (constraints (problem_of (set_fairness_scope self "timestep"))).
  split; [reflexivity |].
  destruct (total_expected_reward
              (formulated (set_fairness_scope self "timestep")))
    as [e | total]; cbn [fst snd].
  - split; [reflexivity |].
    change (formulated (set_fairness_scope self "cumulative"))
      with (set_fairness_scope (formulated self) "cumulative").
    change (formulated (set_fairness_scope self "timestep"))
      with (set_fairness_scope (formulated self) "timestep").
    split;
      [apply (one_period_gradients (formulated self) (Hags None) Hh)
      | apply (one_period_realized_penalty (formulated self) (Hags None) Hh)].
  - set (problem := {| objective := total |}).
    set (sol := cvx_solve problem).
    change (store_solution (formulated (set_fairness_scope self "cumulative"))
                           problem sol)
      with (set_fairness_scope (store_solution (formulated self) problem sol)
                               "cumulative").
    change (store_solution (formulated (set_fairness_scope self "timestep"))
                           problem sol)
      with (set_fairness_scope (store_solution (formulated self) problem sol)
                               "timestep").
    pose proof (Hags (Some (problem, sol))) as Hs; cbn [fst snd] in Hs.
    assert (Hg := one_period_gradients _ Hs Hh).
    assert (Hr := one_period_realized_penalty _ Hs Hh).
    split; [| split; [exact Hg | exact Hr]].
    unfold report; rewrite Hg, Hr; reflexivity.
Qed.

(** ** Agents removed after construction *)

(** X15. [self.agents] is the caller's list and [num_agents] the count
    taken at construction. When the list has since lost agents, so that
    [num_agents] exceeds its length, [solve] rebuilds the variables for the
    agents that are left and then raises [IndexError] at the first
    per-agent constraint without a row of variables: [lp] and
    [resource_constraints] keep what they held before the call. *)
Theorem removed_agents_raise_IndexError (self : MasterProblem) :
  length (agents self) < num_agents self ->
  solve self =
  (set_decision_vars self (create_decision_vars (agents self)),
   inl IndexError).
Proof.
  intros Hlt; unfold solve, formulate.
  set (self1 := set_decision_vars self (create_decision_vars (agents self))).
  assert (H : agent_constraints self1 = inl IndexError).
  { unfold agent_constraints; apply mapM_some_error.
    - intros a _; unfold index.
      destruct (nth_error (decision_vars self1) a);
        [right; eexists |left]; reflexivity.
    - exists (length (agents self)); split; [apply in_range; exact Hlt |].
      unfold index.
      replace (nth_error (decision_vars self1) (length (agents self)))
        with (@None (list CvVariable)); [reflexivity |].
      symmetry; apply nth_error_None; simpl.
      unfold create_decision_vars, enumerate.
      rewrite length_map, length_enumerate_from; apply Nat.le_refl. }
  rewrite H; reflexivity.
Qed.

(** ** The solved mixture and the capacity *)

Lemma np_sum_map_plus {A : Type} (f g : A -> Qc) (l : list A) :
  np_sum (map (fun x => (f x + g x)%Qc) l) =
  (np_sum (map f l) + np_sum (map g l))%Qc.
Proof.
  induction l as [| x l IH]; simpl.
  - rewrite np_sum_nil; ring.
  - rewrite !np_sum_cons, IH; ring.
Qed.

Lemma np_sum_swap {A B : Type} (f : A -> B -> Qc) (xs : list A) (ys : list B) :
  np_sum (map (fun x => np_sum (map (f x) ys)) xs) =
  np_sum (map (fun y => np_sum (map (fun x => f x y) xs)) ys).
Proof.
  induction xs as [| x xs IH]; simpl.
  - rewrite map_constant, np_sum_repeat, np_sum_nil; ring.
  - rewrite np_sum_cons, IH, <- np_sum_map_plus.
    f_equal; apply map_ext; intros y; rewrite np_sum_cons; reflexivity.
Qed.

Lemma map_nth_range (l : list Qc) :
  map (fun t => nth t l 0%Qc) (range (length l)) = l.
Proof.
  apply nth_ext with (d := 0%Qc) (d' := 0%Qc).
  - unfold range; rewrite length_map, length_seq; reflexivity.
  - unfold range; rewrite length_map, length_seq; intros i Hi.
    rewrite nth_indep with (d' := nth 0 l 0%Qc)
      by (rewrite length_map, length_seq; exact Hi).
    change (nth 0 l 0%Qc) with ((fun t => nth t l 0%Qc) 0).
    rewrite map_nth, seq_nth by exact Hi; reflexivity.
Qed.

Lemma np_sum_map_le {A : Type} (f : A -> Qc) (c : Qc) (l : list A) :
  (forall x, In x l -> (f x <= c)%Qc) ->
  (np_sum (map f l) <= Qc_of_nat (length l) * c)%Qc.
Proof.
  induction l as [| x l IH]; intros H; simpl map; simpl length.
  - rewrite np_sum_nil; replace (Qc_of_nat 0 * c)%Qc with 0%Qc;
      [apply Qcle_refl |].
    replace (Qc_of_nat 0) with 0%Qc by (apply Qc_is_canon; reflexivity); ring.
  - rewrite np_sum_cons, Qc_of_nat_S.
    replace ((Qc_of_nat (length l) + 1) * c)%Qc
      with (c + Qc_of_nat (length l) * c)%Qc by ring.
    apply Qcplus_le_compat;
      [apply H; left; reflexivity
      | apply IH; intros; apply H; right; assumption].
Qed.

(** On a well-formed instance, the cumulative expected claim of an agent
    is the sum over the periods of its expected claims. *)
Lemma expected_claim_cumulative (self : MasterProblem)
  (rho : nat -> nat -> Qc) (p : nat * Agent.t) :
  well_formed self -> In p (enumerate (agents self)) ->
  expected_claim rho cumulative_claim_of p =
  np_sum (map (fun t => expected_claim rho (claim_of t) p)
              (range (horizon self))).
Proof.
  intros (_ & Hwf) Hp; unfold expected_claim.
  rewrite <- (np_sum_swap
                (fun q t => (rho (fst p) (fst q) * claim_of t (snd q))%Qc)).
  f_equal; apply map_ext_in; intros q Hq.
  rewrite np_sum_map_scale; f_equal.
  rewrite Forall_forall in Hwf.
  destruct (Hwf (snd p) (in_enumerate_in _ _ Hp)) as (_ & Hcols).
  rewrite Forall_forall in Hcols.
  destruct (Hcols (snd q) (in_enumerate_in _ _ Hq)) as (Hlen & _).
  unfold cumulative_claim_of, claim_of.
  rewrite <- Hlen, map_nth_range; reflexivity.
Qed.

(** X16. When the solver reports an optimal status and keeps its contract
    up to a tolerance [eps] on a well-formed instance, the expected claims
    computed from the solved values exceed the capacity by at most the
    tolerance: in every period the agents' expected claims sum to at most
    [resource_capacity + eps], and their expected cumulative claims sum to
    at most [horizon] times [resource_capacity + eps]. These are the
    vectors the gradient and realized-penalty passes feed to the variance
    primitives. *)
Theorem solved_mixture_within_capacity_and_tolerance (self : MasterProblem)
  (problem : Problem) (eps : Qc) :
  well_formed self ->
  snd (formulate self) = inr problem ->
  status (cvx_solve problem) = Optimal ->
  (0 <= eps)%Qc ->
  solver_contract eps problem (cvx_solve problem) ->
  (forall t, t < horizon self ->
     (np_sum (expected_claims_of self (solved_values self) (claim_of t))
      <= resource_capacity self + eps)%Qc) /\
  (np_sum (expected_claims_of self (solved_values self) cumulative_claim_of)
   <= Qc_of_nat (horizon self) * (resource_capacity self + eps))%Qc.
Proof.
  intros Hwf Hp Hst Heps Hcontract.
  unfold solver_contract in Hcontract; rewrite Hst in Hcontract.
  destruct Hcontract as (rho & Hfeas & Hprimal & _).
  destruct (formulate_inv self problem Hwf Hp) as (E & _).
  rewrite E in Hfeas; apply (feasible_within_problem_of eps self rho Heps) in Hfeas.
  destruct Hfeas as (_ & _ & Hcap).
  assert (Hval : forall a c, solved_values self a c = Some (rho a c))
    by (intros a c; unfold solved_values; rewrite Hp; apply Hprimal).
  split.
  - intros t Ht.
    rewrite (expected_claims_of_values self _ rho _ Hval).
    apply (Hcap t Ht).
  - rewrite (expected_claims_of_values self _ rho _ Hval).
    rewrite (map_ext_in _ _ _
               (fun p Hp => expected_claim_cumulative self rho p Hwf Hp)).
    rewrite np_sum_swap.
    replace (horizon self) with (length (range (horizon self))) at 2
      by (unfold range; apply length_seq).
    apply np_sum_map_le; intros t Ht; apply in_range in Ht.
    apply (Hcap t Ht).
Qed.

End MasterProblemModel.

(** ** The properties at concrete instances *)

(** Concrete equalities: evaluate both sides, then compare the rationals
    by their values. *)
Ltac qc_equal :=
  vm_compute;
  repeat match goal with
         | |- @eq Qc _ _ => apply Qc_is_canon; reflexivity
         | |- _ => reflexivity
         | |- _ => f_equal
         end.


Lemma two_agents_constructed (claim0 claim1 capacity weight : Qc)
  (fscope : string) :
  init [unit_agent claim0; unit_agent claim1] capacity weight
       default_fairness_type fscope
  = inr (two_agents claim0 claim1 capacity weight fscope).
Proof. reflexivity. Qed.

Lemma unknown_fairness_scope_raises_witness :
  fairness_scope episode_instance <> "timestep" /\
  fairness_scope episode_instance <> "cumulative" /\
  compute_fairness_gradients population_variance_gradient episode_instance =
    inl (ValueError "Unknown fairness_scope option") /\
  snd (solve population_variance_gradient population_variance
             (fun _ => no_solution) episode_instance) =
    inl (ValueError "Unknown fairness_scope option").
Proof.
  assert (H1 : fairness_scope episode_instance <> "timestep") by discriminate.
  assert (H2 : fairness_scope episode_instance <> "cumulative") by discriminate.
  split; [exact H1 | split; [exact H2 |]].
  destruct (unknown_fairness_scope_raises
              population_variance_gradient population_variance
              (fun _ => no_solution) episode_instance H1 H2)
    as (Hg & _ & Hs).
  split; [exact Hg |].
  exact (proj1 (Hs (two_agents_well_formed _ _ _ _ _))).
Defined.

Lemma choice_instance_well_formed : well_formed choice_instance.
Proof. split; [reflexivity | repeat constructor]. Qed.

Lemma two_period_instance_well_formed : well_formed two_period_instance.
Proof. split; [reflexivity | repeat constructor]. Qed.

Lemma Qc_neq (x y : Qc) : ~ (this x == this y)%Q -> x <> y.
Proof. intros H E; apply H; rewrite E; reflexivity. Qed.

Lemma decision_distribution_valid_witness :
  nth_error (agents choice_instance) 0 = Some choice_agent /\
  Agent.get_columns choice_agent <> [] /\
  exists dist,
    nth_error (get_decision_distribution
                 (fst (solve population_variance_gradient population_variance
                             (fun _ =>
                                optimal_outcome
                                  (fun _ c => if Nat.eqb c 0
                                              then Q2Qc (3 # 10)
                                              else Q2Qc (9 # 10))
                                  (Q2Qc (6 # 5)) (fun _ => None))
                             choice_instance))) 0
    = Some dist /\
    dist = [Q2Qc (1 # 4); Q2Qc (3 # 4)].
Proof.
  assert (H1 : nth_error (agents choice_instance) 0 = Some choice_agent)
    by reflexivity.
  assert (H2 : Agent.get_columns choice_agent <> []) by discriminate.
  split; [exact H1 | split; [exact H2 |]].
  destruct (decision_distribution_valid
              population_variance_gradient population_variance
              (fun _ =>
                 optimal_outcome
                   (fun _ c => if Nat.eqb c 0
                               then Q2Qc (3 # 10) else Q2Qc (9 # 10))
                   (Q2Qc (6 # 5)) (fun _ => None))
              population_variance
              choice_instance 0 choice_agent H1 H2)
    as (dist & Hd & _ & _ & _ & Hnorm & _).
  exists dist; split; [exact Hd |].
  rewrite Hnorm.
  - qc_equal.
  - apply Qc_neq; vm_compute; discriminate.
Defined.

(** C2, as stated, fails. [get_decision_distribution] does not clip: when
    the solver overshoots and leaves the values -1e-6 and 1 + 1e-6 in the
    two variables of an agent, which sum to 1, the agent's vector is
    [-1e-6, 1 + 1e-6], with a negative weight; [solve] returns it. *)
Lemma decision_distribution_counterexample :
  snd (solve population_variance_gradient population_variance
             (fun _ =>
                optimal_outcome
                  (fun _ c => if Nat.eqb c 0
                              then Q2Qc (-1 # 1000000)
                              else Q2Qc (1000001 # 1000000))
                  (Q2Qc (1000001 # 1000000)) (fun _ => None))
             choice_instance) =
  inr (Finite (Q2Qc (1000001 # 1000000)),
       [[Q2Qc (-1 # 1000000); Q2Qc (1000001 # 1000000)]], 0%Qc) /\
  nth_error
    (get_decision_distribution
       (fst (solve population_variance_gradient population_variance
                   (fun _ =>
                      optimal_outcome
                        (fun _ c => if Nat.eqb c 0
                                    then Q2Qc (-1 # 1000000)
                                    else Q2Qc (1000001 # 1000000))
                        (Q2Qc (1000001 # 1000000)) (fun _ => None))
                   choice_instance))) 0 =
  Some [Q2Qc (-1 # 1000000); Q2Qc (1000001 # 1000000)] /\
  (Q2Qc (-1 # 1000000) < 0)%Qc.
Proof.
  split; [| split].
  - qc_equal.
  - qc_equal.
  - reflexivity.
Defined.

(** C3, as stated, fails. With weight 0 the objective assembly of [solve]
    does not look at the scope: under the unknown scope "episode" the
    problem is built and the solver is run, and only the gradient
    computation that follows raises [ValueError]. *)
Lemma unknown_fairness_scope_counterexample :
  fairness_scope unweighted_episode_instance <> "timestep" /\
  fairness_scope unweighted_episode_instance <> "cumulative" /\
  snd (formulate unweighted_episode_instance) =
    inr (problem_of unweighted_episode_instance) /\
  lp (fst (solve population_variance_gradient population_variance
                 (fun _ => all_ones (Q2Qc 2)) unweighted_episode_instance)) =
    Some {| lp_problem := problem_of unweighted_episode_instance;
            lp_status := Optimal;
            lp_value := Finite (Q2Qc 2) |} /\
  snd (solve population_variance_gradient population_variance
             (fun _ => all_ones (Q2Qc 2)) unweighted_episode_instance) =
    inl (ValueError "Unknown fairness_scope option").
Proof.
  split; [discriminate | split; [discriminate |]].
  split; [vm_compute; reflexivity |].
  split; vm_compute; reflexivity.
Defined.

Lemma horizon_comes_from_first_agent_witness :
  Forall2 same_plan (agents scenario_B)
          [unit_agent 1%Qc;
           {| Agent.horizon := 7;
              Agent.fixed_cost_vector := [0%Qc];
              Agent.get_columns := [unit_column 0%Qc] |}] /\
  snd (solve population_variance_gradient population_variance
             (fun _ => all_ones 1%Qc)
             (set_agents scenario_B
                [unit_agent 1%Qc;
                 {| Agent.horizon := 7;
                    Agent.fixed_cost_vector := [0%Qc];
                    Agent.get_columns := [unit_column 0%Qc] |}]))
  = snd (solve population_variance_gradient population_variance
               (fun _ => all_ones 1%Qc) scenario_B).
Proof.
  assert (H : Forall2 same_plan (agents scenario_B)
                [unit_agent 1%Qc;
                 {| Agent.horizon := 7;
                    Agent.fixed_cost_vector := [0%Qc];
                    Agent.get_columns := [unit_column 0%Qc] |}])
    by (repeat constructor).
  split; [exact H |].
  destruct (horizon_comes_from_first_agent
              population_variance_gradient population_variance
              (fun _ => all_ones 1%Qc)) as (_ & _ & _ & Hops).
  destruct (Hops scenario_B _ H) as (Hsolve & _).
  rewrite Hsolve; reflexivity.
Defined.

(** C4 (the code departs from the claim). The realized-penalty path never
    inspects [fairness_type]: it returns the same result under every type.
    On Scenario B with weight 0 and the type "entropy", [solve] raises
    [NotImplementedError] from the gradient path after the solver has
    stored its values, and on the state it leaves the gradient path raises
    [NotImplementedError] again while the realized-penalty path returns
    the variance of the expected claims [1, 0]. *)
Theorem realized_penalty_ignores_fairness_type :
  (forall numpy self ftype,
      compute_realized_fairness_penalty numpy (set_fairness_type self ftype) =
      compute_realized_fairness_penalty numpy self) /\
  snd (solve population_variance_gradient population_variance
             (fun _ => all_ones (Q2Qc 2)) entropy_instance) =
    inl (NotImplementedError "Only variance fairness implemented in gradient") /\
  compute_fairness_gradients
    population_variance_gradient
    (fst (solve population_variance_gradient population_variance
                (fun _ => all_ones (Q2Qc 2)) entropy_instance)) =
    inl (NotImplementedError "Only variance fairness implemented in gradient") /\
  compute_realized_fairness_penalty
    population_variance
    (fst (solve population_variance_gradient population_variance
                (fun _ => all_ones (Q2Qc 2)) entropy_instance)) =
    inr (population_variance [1%Qc; 0%Qc]).
Proof.
  split; [reflexivity |].
  split; [vm_compute; reflexivity |].
  split; [vm_compute; reflexivity |].
  vm_compute; f_equal; apply Qc_is_canon; reflexivity.
Qed.



(** Setting both variables to 1 and reporting [two_agents_optimum] keeps
    the solver's contract up to every tolerance whenever the claims fit the
    capacity. *)
Lemma all_ones_contract (claim0 claim1 capacity weight eps : Qc) :
  (0 <= eps)%Qc ->
  (claim0 + claim1 <= capacity)%Qc ->
  solver_contract population_variance eps
    (problem_of (two_agents claim0 claim1 capacity weight "timestep"))
    (all_ones (two_agents_optimum claim0 claim1 weight)).
Proof.
  intros Heps Hcap; unfold solver_contract; simpl status.
  exists (fun _ _ => 1%Qc).
  pose proof (two_agents_feasible_ones population_variance
                claim0 claim1 capacity weight Hcap) as Hones.
  split; [apply feasible_feasible_within; assumption |].
  split; [reflexivity |].
  split.
  - simpl opt_value; f_equal; symmetry.
    apply (two_agents_objective population_variance); reflexivity.
  - intros rho Hfeas.
    destruct (two_agents_feasible population_variance _ _ _ _ rho Hfeas)
      as (H0 & H1 & _).
    rewrite (two_agents_objective population_variance _ _ _ _ rho H0 H1).
    rewrite (two_agents_objective population_variance _ _ _ _
                                  (fun _ _ => 1%Qc) eq_refl eq_refl).
    apply Qcle_plus_nonneg; exact Heps.
Qed.

(** Outcomes within 1e-9 of the optimum of Scenario B and of Scenario A
    with capacity 2, as a solver working to the tolerance 1e-6 leaves
    them; each reports the objective at its values. *)
Lemma scenario_B_outcome_contract :
  solver_contract population_variance (Q2Qc (1 # 1000000))
                  (problem_of scenario_B) scenario_B_outcome.
Proof.
  apply (near_ones_contract population_variance 1%Qc 0%Qc 1%Qc (Q2Qc 5)
           (Q2Qc (1 # 1000000))
           (Q2Qc (1000000001 # 1000000000))
           (Q2Qc (999999999 # 1000000000)));
    unfold Qcle; vm_compute; discriminate.
Qed.


Lemma tolerance_below_1 : (Q2Qc (1 # 1000000) < 1)%Qc.
Proof. reflexivity. Qed.

Lemma tolerance_nonneg : (0 <= Q2Qc (1 # 1000000))%Qc.
Proof. unfold Qcle; vm_compute; discriminate. Qed.

Lemma objective_handed_to_solver_witness :
  well_formed scenario_B /\
  exists problem,
    snd (formulate scenario_B) = inr problem /\
    penalty_calls (objective problem) = 1.
Proof.
  pose proof (two_agents_well_formed 1%Qc 0%Qc 1%Qc (Q2Qc 5) "timestep") as Hwf.
  split; [exact Hwf |].
  destruct (objective_handed_to_solver
              population_variance_gradient population_variance
              (fun _ => all_ones 1%Qc) population_variance scenario_B Hwf)
    as (Hbuilt & Hhanded).
  destruct (Hbuilt (two_agents_configured _ _ _ _)) as (problem & Hp).
  exists problem; split; [exact Hp |].
  destruct (Hhanded problem Hp) as (_ & _ & Hcalls & _).
  exact Hcalls.
Defined.

Lemma dual_prices_per_period_witness :
  well_formed two_period_instance /\
  has_column two_period_instance /\
  get_dual_prices
    (fst (solve population_variance_gradient population_variance
                (fun _ =>
                   optimal_outcome
                     (fun _ _ => 1%Qc) 1%Qc
                     (fun i => if Nat.eqb i 2 then Some (Q2Qc 3) else None))
                two_period_instance)) = inr [0%Qc; Q2Qc 3].
Proof.
  pose proof two_period_instance_well_formed as Hwf.
  assert (Hcol : has_column two_period_instance).
  { exists two_period_agent; split; [left; reflexivity | discriminate]. }
  split; [exact Hwf | split; [exact Hcol |]].
  destruct (dual_prices_per_period
              population_variance_gradient population_variance
              (fun _ =>
                 optimal_outcome
                   (fun _ _ => 1%Qc) 1%Qc
                   (fun i => if Nat.eqb i 2 then Some (Q2Qc 3) else None))
              two_period_instance Hwf Hcol)
    as (prices & Hprices & Hlen & Hentries).
  rewrite Hprices; f_equal.
  destruct prices as [| price0 [| price1 [| ? ?]]]; try discriminate Hlen.
  destruct (Hentries 0 (Nat.lt_0_succ 1)) as (_ & _ & Hprice0).
  destruct (Hentries 1 (Nat.lt_succ_diag_r 1)) as (_ & _ & Hprice1).
  vm_compute in Hprice0, Hprice1.
  inversion Hprice0; inversion Hprice1.
  qc_equal.
Defined.

(** C5, as stated, fails: not every instance gives [horizon] floats. On
    an instance fresh from the constructor [get_dual_prices] returns the
    empty array; after a [solve] that stopped in the capacity loop it
    returns the prices of the periods built so far, one instead of two;
    after a [solve] on agents without columns it raises
    [AttributeError]. *)
Lemma dual_prices_counterexample :
  (horizon scenario_B = 1 /\ get_dual_prices scenario_B = inr []) /\
  (horizon short_instance = 2 /\
   get_dual_prices
     (fst (solve population_variance_gradient population_variance
                 (fun _ => all_ones 1%Qc) short_instance)) = inr [0%Qc]) /\
  (horizon no_columns_instance = 1 /\
   get_dual_prices
     (fst (solve population_variance_gradient population_variance
                 (fun _ => all_ones 1%Qc) no_columns_instance)) =
   inl AttributeError).
Proof.
  repeat split; vm_compute; reflexivity.
Defined.





Lemma unset_values_raise_TypeError_witness :
  well_formed scenario_A /\
  penalty_configured scenario_A /\
  snd (solve population_variance_gradient population_variance
             (fun _ => no_solution) scenario_A) = inl TypeError.
Proof.
  pose proof (two_agents_well_formed 1%Qc 1%Qc 1%Qc 0%Qc "timestep") as Hwf.
  pose proof (two_agents_configured 1%Qc 1%Qc 1%Qc 0%Qc) as Hcfg.
  split; [exact Hwf | split; [exact Hcfg |]].
  apply (unset_values_raise_TypeError
           population_variance_gradient population_variance
           (fun _ => no_solution) scenario_A
           (unit_agent 1%Qc) [unit_agent 1%Qc] Hwf Hcfg).
  - left; split; [reflexivity | exact (Nat.lt_0_succ 0)].
  - reflexivity.
  - discriminate.
  - reflexivity.
Defined.

(** ** The further properties at concrete instances *)

Lemma scenario_B_formulated :
  snd (formulate scenario_B) = inr (problem_of scenario_B).
Proof.
  exact (f_equal snd (formulate_ok scenario_B
                        (two_agents_well_formed _ _ _ _ _)
                        (two_agents_configured _ _ _ _))).
Qed.

Lemma idle_instance_well_formed : well_formed idle_instance.
Proof. split; [reflexivity | repeat constructor]. Qed.

Lemma no_columns_instance_well_formed : well_formed no_columns_instance.
Proof. split; [reflexivity | repeat constructor]. Qed.

Lemma scenario_B_optimum_contract :
  solver_contract population_variance 0%Qc (problem_of scenario_B)
                  (all_ones (two_agents_optimum 1%Qc 0%Qc (Q2Qc 5))).
Proof.
  exact (all_ones_contract 1%Qc 0%Qc 1%Qc (Q2Qc 5) 0%Qc
                           (Qcle_refl 0%Qc) Qcle_1_1).
Qed.

Lemma constraints_define_mixtures_within_capacity_witness :
  feasible population_variance (problem_of scenario_B) (fun _ _ => 1%Qc) <->
  meets_constraints scenario_B (fun _ _ => 1%Qc).
Proof.
  apply (constraints_define_mixtures_within_capacity
           population_variance scenario_B).
  - exact (two_agents_well_formed _ _ _ _ _).
  - exact scenario_B_formulated.
Defined.

Lemma agent_without_columns_is_infeasible_witness :
  In idle_agent (agents idle_instance) /\
  Agent.get_columns idle_agent = [] /\
  In (PyBool false) (constraints (problem_of idle_instance)) /\
  forall rho, ~ feasible population_variance (problem_of idle_instance) rho.
Proof.
  assert (Hin : In idle_agent (agents idle_instance))
    by (right; left; reflexivity).
  split; [exact Hin | split; [reflexivity |]].
  apply (agent_without_columns_is_infeasible
           population_variance idle_instance (problem_of idle_instance)
           idle_agent idle_instance_well_formed).
  - vm_compute; reflexivity.
  - exact Hin.
  - reflexivity.
Defined.

Lemma more_capacity_keeps_feasible_points_witness :
  (resource_capacity scenario_B <= Q2Qc 2)%Qc /\
  exists problem',
    snd (formulate (set_resource_capacity scenario_B (Q2Qc 2))) = inr problem' /\
    objective problem' = objective (problem_of scenario_B).
Proof.
  assert (Hle : (resource_capacity scenario_B <= Q2Qc 2)%Qc)
    by (unfold Qcle; simpl; discriminate).
  split; [exact Hle |].
  destruct (more_capacity_keeps_feasible_points
              population_variance scenario_B (Q2Qc 2)
              (two_agents_well_formed _ _ _ _ _) Hle) as (_ & Hbuilt).
  destruct (Hbuilt _ scenario_B_formulated) as (problem' & Hp & Hobj & _).
  exists problem'; split; [exact Hp | exact Hobj].
Defined.

Lemma optimal_values_are_returned_within_tolerance_witness :
  exists dist,
    nth_error
      (get_decision_distribution
         (fst (solve population_variance_gradient population_variance
                     (fun _ => scenario_B_outcome) scenario_B))) 0
    = Some dist /\
    forall c x d,
      nth_error (map (value_at (primal scenario_B_outcome) 0) (range 1)) c
      = Some x ->
      nth_error dist c = Some d ->
      (x - Q2Qc (1 # 1000000) <= d)%Qc /\ (d <= x + Q2Qc (1 # 1000000))%Qc.
Proof.
  destruct (optimal_values_are_returned_within_tolerance
              population_variance_gradient population_variance
              (fun _ => scenario_B_outcome) population_variance
              scenario_B (problem_of scenario_B) (Q2Qc (1 # 1000000))
              0 (unit_agent 1%Qc) (two_agents_well_formed _ _ _ _ _)
              scenario_B_formulated eq_refl tolerance_nonneg
              tolerance_below_1 scenario_B_outcome_contract eq_refl)
    as (dist & Hd & _ & _ & _ & Hnear & _); [discriminate |].
  exists dist; split; [exact Hd | exact Hnear].
Defined.

Lemma unset_values_give_uniform_distribution_witness :
  get_decision_distribution
    (fst (solve population_variance_gradient population_variance
                (fun _ => no_solution) scenario_A)) =
  map (fun agent =>
         repeat (1 / Qc_of_nat (length (Agent.get_columns agent)))%Qc
                (length (Agent.get_columns agent)))
      (agents scenario_A) /\
  get_dual_prices
    (fst (solve population_variance_gradient population_variance
                (fun _ => no_solution) scenario_A)) =
  inr [Q2Qc (3155 # 1000)].
Proof.
  split.
  - apply (unset_values_give_uniform_distribution
             population_variance_gradient population_variance
             (fun _ => no_solution) scenario_A).
    intros problem _ a c; reflexivity.
  - qc_equal.
Defined.

Lemma dual_prices_without_columns_raise_witness :
  get_dual_prices
    (fst (solve population_variance_gradient population_variance
                (fun _ => no_solution) no_columns_instance)) =
  inl AttributeError.
Proof.
  apply (dual_prices_without_columns_raise
           population_variance_gradient population_variance
           (fun _ => no_solution) no_columns_instance
           no_columns_instance_well_formed).
  - repeat constructor.
  - exact (Nat.lt_0_succ 0).
Defined.

Lemma fairness_impact_is_weighted_realized_penalty_witness :
  exists solved v dists impact realized,
    solve population_variance_gradient population_variance
          (fun _ => all_ones 1%Qc) scenario_B = (solved, inr (v, dists, impact)) /\
    compute_realized_fairness_penalty population_variance solved = inr realized /\
    impact = (langrangian_weight scenario_B * realized)%Qc.
Proof.
  do 4 eexists.
  assert (Hsolve : solve population_variance_gradient population_variance
                         (fun _ => all_ones 1%Qc) scenario_B = (_, inr (_, _, _)))
    by (vm_compute; reflexivity).
  destruct (fairness_impact_is_weighted_realized_penalty
              population_variance_gradient population_variance
              (fun _ => all_ones 1%Qc) scenario_B _ _ _ _ eq_refl Hsolve)
    as (realized & Hr & Himpact & _).
  exists realized; split; [exact Hsolve | split; [exact Hr | exact Himpact]].
Defined.

Lemma objective_value_is_reward_minus_impact_witness :
  exists solved v dists impact rho,
    solve population_variance_gradient population_variance
          (fun _ => scenario_B_outcome)
          scenario_B = (solved, inr (v, dists, impact)) /\
    v = Finite (spec_reward scenario_B rho -
                (if Qc_ltb 0%Qc (langrangian_weight scenario_B)
                 then impact else 0))%Qc.
Proof.
  do 4 eexists.
  assert (Hsolve : solve population_variance_gradient population_variance
                         (fun _ => scenario_B_outcome)
                         scenario_B = (_, inr (_, _, _)))
    by (vm_compute; reflexivity).
  destruct (objective_value_is_reward_minus_impact
              population_variance_gradient population_variance
              (fun _ => scenario_B_outcome)
              population_variance scenario_B _ _ _ _ (Q2Qc (1 # 1000000))
              (two_agents_well_formed _ _ _ _ _) Hsolve eq_refl
              scenario_B_outcome_contract (fun _ => eq_refl))
    as (rho & _ & Hv).
  exists rho; split; [exact Hsolve | exact Hv].
Defined.

Lemma solve_reads_only_the_configuration_witness :
  solve population_variance_gradient population_variance
        (fun _ => all_ones 1%Qc)
        (fst (solve population_variance_gradient population_variance
                    (fun _ => all_ones 1%Qc) scenario_B)) =
  solve population_variance_gradient population_variance
        (fun _ => all_ones 1%Qc) scenario_B.
Proof.
  apply (solve_reads_only_the_configuration
           population_variance_gradient population_variance
           (fun _ => all_ones 1%Qc) scenario_B
           (fst (solve population_variance_gradient population_variance
                       (fun _ => all_ones 1%Qc) scenario_B))).
  - reflexivity.
  - repeat split.
Defined.

Lemma extraction_before_first_solve_witness :
  get_dual_prices scenario_B = inr [] /\
  get_decision_distribution scenario_B = [] /\
  compute_fairness_gradients population_variance_gradient scenario_B =
    inl IndexError /\
  compute_realized_fairness_penalty population_variance scenario_B =
    inl IndexError.
Proof.
  destruct (extraction_before_first_solve
              population_variance_gradient population_variance
              [unit_agent 1%Qc; unit_agent 0%Qc] 1%Qc (Q2Qc 5)
              default_fairness_type "timestep" scenario_B eq_refl)
    as (Hprices & Hdist & Hpasses).
  split; [exact Hprices | split; [exact Hdist |]].
  apply Hpasses.
  - exists (unit_agent 1%Qc); split; [left; reflexivity | discriminate].
  - left; split; [reflexivity | exact (Nat.lt_0_succ 0)].
Defined.

Lemma unsupported_fairness_type_raises_UnboundLocalError_witness :
  snd (solve population_variance_gradient population_variance
             (fun _ => all_ones 1%Qc)
             (set_fairness_type scenario_B "entropy")) =
  inl (UnboundLocalError "fairness_penalty").
Proof.
  refine (f_equal snd
            (proj1 (unsupported_fairness_type_raises_UnboundLocalError
                      population_variance_gradient population_variance
                      (fun _ => all_ones 1%Qc)
                      (set_fairness_type scenario_B "entropy") _ _ _ _))).
  - exact (two_agents_well_formed 1%Qc 0%Qc 1%Qc (Q2Qc 5) "timestep").
  - reflexivity.
  - discriminate.
  - left; split; [reflexivity | exact (Nat.lt_0_succ 0)].
Defined.

Lemma short_claims_raise_IndexError_witness :
  length (claims (unit_column 1%Qc)) < horizon short_instance /\
  snd (solve population_variance_gradient population_variance
             (fun _ => no_solution) short_instance) = inl IndexError.
Proof.
  assert (Hshort : length (claims (unit_column 1%Qc)) < horizon short_instance)
    by (exact (Nat.lt_succ_diag_r 1)).
  split; [exact Hshort |].
  apply (short_claims_raise_IndexError
           population_variance_gradient population_variance
           (fun _ => no_solution) short_instance short_agent
           (unit_column 1%Qc) eq_refl).
  - left; reflexivity.
  - left; reflexivity.
  - exact Hshort.
Defined.

Lemma one_period_scopes_agree_witness :
  snd (solve population_variance_gradient population_variance
             (fun _ => all_ones 1%Qc)
             (set_fairness_scope scenario_B "cumulative")) =
  snd (solve population_variance_gradient population_variance
             (fun _ => all_ones 1%Qc)
             (set_fairness_scope scenario_B "timestep")).
Proof.
  apply (one_period_scopes_agree
           population_variance_gradient population_variance
           (fun _ => all_ones 1%Qc) scenario_B
           (two_agents_well_formed _ _ _ _ _) eq_refl).
Defined.

Lemma removed_agents_raise_IndexError_witness :
  length (agents shrunk_instance) < num_agents shrunk_instance /\
  snd (solve population_variance_gradient population_variance
             (fun _ => no_solution) shrunk_instance) = inl IndexError.
Proof.
  assert (Hlt : length (agents shrunk_instance) < num_agents shrunk_instance)
    by (exact (Nat.lt_succ_diag_r 1)).
  split; [exact Hlt |].
  exact (f_equal snd
           (removed_agents_raise_IndexError
              population_variance_gradient population_variance
              (fun _ => no_solution) shrunk_instance Hlt)).
Defined.

Lemma solved_mixture_within_capacity_and_tolerance_witness :
  (np_sum (expected_claims_of
             scenario_B
             (solved_values (fun _ => scenario_B_outcome) scenario_B)
             (claim_of 0))
   <= resource_capacity scenario_B + Q2Qc (1 # 1000000))%Qc.
Proof.
  exact (proj1 (solved_mixture_within_capacity_and_tolerance
                  (fun _ => scenario_B_outcome)
                  population_variance scenario_B (problem_of scenario_B)
                  (Q2Qc (1 # 1000000))
                  (two_agents_well_formed _ _ _ _ _)
                  scenario_B_formulated eq_refl tolerance_nonneg
                  scenario_B_outcome_contract)
               0 (Nat.lt_0_succ 0)).
Defined.
